(** * HAHA-NO-UR: the data controller ([src/data_controller/mongo.py])

    A shallow embedding of [CardController] and [UserController] together
    with the part of the document store they talk to.

    Layout:
    - [Py]          Python values, dictionaries and exceptions;
    - [Store]       the document store: queries, projections, update
                    operators, [$sample];
    - [Eff]         the world (collections, heap, clock, randomness) and
                    the monad of computations that return or raise;
    - [Cards]       [CardController];
    - [Users]       [UserController];
    - [StoreMore], [CardQueries], [UserAdmin]
                    projections by field, [distinct], [delete_one] and the
                    operations built on them;
    - [Vocabulary], [MoreVocabulary]
                    the words the properties are stated in;
    - [Examples]    concrete worlds;
    - facts and properties, module by module.

    Limits of the store model.  Python integers are unbounded; the signed
    64-bit range of the wire format is modelled where an update writes an
    integer: the values of [$set], the document an upsert inserts, and the
    result of [$inc].  Lookup keys and the album entries [$push] appends (a
    stored card's id, the counters 1 and 0, a clock reading) are taken to be
    within the range.  There are no floating point values, and the timestamp
    [int(round(time.time() * 1000))] is read from a clock that yields
    milliseconds.  Array index segments in field
    paths and documents or arrays used as sort keys are not modelled; every
    property below is stated on data where they do not occur. *)

From Stdlib Require Import ZArith List String Ascii Bool Lia Arith.
From Stdlib Require Import Permutation Sorted.
Import ListNotations.

Set Warnings "-register-all,-abstract-large-number".

Local Open Scope string_scope.
Local Open Scope list_scope.
Local Open Scope Z_scope.

(* ================================================================== *)
(** * Python values and effects *)
(* ================================================================== *)

Module Py.

(** Values that travel between the controller and the store: Python's
    [None], [int], [str], [dict] and [list]. A dictionary keeps its keys in
    insertion order. *)
Inductive value : Type :=
| VNull
| VInt (n : Z)
| VStr (s : string)
| VDoc (d : list (string * value))
| VArr (l : list value).

Definition document := list (string * value).

(** Structural equality; for documents it is sensitive to field order, as
    the store's comparison of embedded documents is. *)
Fixpoint value_eqb (a b : value) {struct a} : bool :=
  match a, b with
  | VNull, VNull => true
  | VInt x, VInt y => Z.eqb x y
  | VStr s, VStr t => String.eqb s t
  | VDoc d, VDoc e =>
      (fix fields (d e : list (string * value)) {struct d} : bool :=
         match d, e with
         | [], [] => true
         | (k, v) :: d', (k', v') :: e' =>
             String.eqb k k' && value_eqb v v' && fields d' e'
         | _, _ => false
         end) d e
  | VArr l, VArr m =>
      (fix elems (l m : list value) {struct l} : bool :=
         match l, m with
         | [], [] => true
         | x :: l', y :: m' => value_eqb x y && elems l' m'
         | _, _ => false
         end) l m
  | _, _ => false
  end.

Definition opt_value_eqb (a b : option value) : bool :=
  match a, b with
  | None, None => true
  | Some x, Some y => value_eqb x y
  | _, _ => false
  end.

(** ** Dictionaries *)

(** [d[k]], as an option. *)
Fixpoint dict_get (k : string) (d : document) : option value :=
  match d with
  | [] => None
  | (k', v) :: d' => if String.eqb k k' then Some v else dict_get k d'
  end.

(** [d[k] = v]: an existing key keeps its place, a new key goes last. *)
Fixpoint dict_set (k : string) (v : value) (d : document) : document :=
  match d with
  | [] => [(k, v)]
  | (k', v') :: d' =>
      if String.eqb k k' then (k, v) :: d' else (k', v') :: dict_set k v d'
  end.

(** [del d[k]] on a dictionary that has the key. *)
Fixpoint dict_del (k : string) (d : document) : document :=
  match d with
  | [] => []
  | (k', v') :: d' =>
      if String.eqb k k' then d' else (k', v') :: dict_del k d'
  end.

Definition keys (d : document) : list string := map fst d.

(** Python truthiness, the test behind [if not x]. *)
Definition truthy (v : value) : bool :=
  match v with
  | VNull => false
  | VInt n => negb (Z.eqb n 0)
  | VStr s => negb (String.eqb s "")
  | VDoc d => negb (Nat.eqb (List.length d) 0)
  | VArr l => negb (Nat.eqb (List.length l) 0)
  end.

(** ** Exceptions *)

Inductive exn : Type :=
| KeyError (key : string)
| IndexError
| TypeError
| AttributeError            (* attribute access on [None] *)
| DuplicateKeyError         (* store: the [_id] is already taken *)
| WriteError                (* store: the update cannot be applied *)
| OperationFailure          (* store: the command is rejected *)
| OverflowError             (* driver: an integer does not fit 8 bytes *)
| Unmodelled                (* the store model does not cover this case *)
| BadReference.             (* a heap location that was never allocated *)

Inductive outcome (A : Type) : Type :=
| Ok (a : A)
| Raise (e : exn).
Arguments Ok {A} a.
Arguments Raise {A} e.

Definition obind {A B} (o : outcome A) (f : A -> outcome B) : outcome B :=
  match o with
  | Ok a => f a
  | Raise e => Raise e
  end.

(** [v[k]] for a value that is expected to be a dictionary. *)
Definition subscript (v : value) (k : string) : outcome value :=
  match v with
  | VDoc d =>
      match dict_get k d with
      | Some x => Ok x
      | None => Raise (KeyError k)
      end
  | _ => Raise TypeError
  end.

(** [v[0]]. *)
Definition first_item (v : value) : outcome value :=
  match v with
  | VArr (x :: _) => Ok x
  | VArr [] => Raise IndexError
  | VStr (String c _) => Ok (VStr (String c EmptyString))
  | VStr EmptyString => Raise IndexError
  | VDoc _ => Raise (KeyError "0")
  | _ => Raise TypeError
  end.

(** [v - n] for an integer [n]. *)
Definition py_sub (v : value) (n : Z) : outcome value :=
  match v with
  | VInt m => Ok (VInt (m - n))
  | _ => Raise TypeError
  end.

End Py.
Export Py.

(* ================================================================== *)
(** * The document store *)
(* ================================================================== *)

Module Store.

Definition collection := list document.

(** ** Field paths *)

(** A field path such as ["album.id"] is a dot-separated list of segments. *)
Fixpoint split_path (s : string) : list string :=
  match s with
  | EmptyString => [EmptyString]
  | String c s' =>
      if Ascii.eqb c "."%char then EmptyString :: split_path s'
      else match split_path s' with
           | [] => [String c EmptyString]
           | seg :: segs => String c seg :: segs
           end
  end.

(** The values a path reaches in a value. A path steps through the fields of
    embedded documents and, at an array, through each element that is a
    document. *)
Fixpoint path_values (p : list string) (v : value) {struct p} : list value :=
  match p with
  | [] => [v]
  | k :: ks =>
      let in_doc (d : document) :=
        match dict_get k d with
        | Some x => path_values ks x
        | None => []
        end in
      match v with
      | VDoc d => in_doc d
      | VArr l =>
          flat_map (fun e => match e with VDoc d => in_doc d | _ => [] end) l
      | _ => []
      end
  end.

Definition array_elems (v : value) : list value :=
  match v with
  | VArr l => l
  | _ => []
  end.

(** ** Queries *)

Inductive bound : Type :=
| BInt (n : Z)
| BStr (s : string).

(** The condition on one field: [{f: v}], [{f: {'$in': vs}}] and the range
    operators [$gt], [$gte], [$lt], [$lte]. *)
Inductive cond : Type :=
| CEq (v : value)
| CIn (vs : list value)
| CGt (b : bound)
| CGte (b : bound)
| CLt (b : bound)
| CLte (b : bound).

(** A query document: every field condition must hold. *)
Definition query := list (string * cond).

(** Range operators compare within one type only. *)
Definition cmp_bound (x : value) (b : bound) : option comparison :=
  match x, b with
  | VInt n, BInt m => Some (Z.compare n m)
  | VStr s, BStr t => Some (String.compare s t)
  | _, _ => None
  end.

Definition is_null (v : value) : bool :=
  match v with
  | VNull => true
  | _ => false
  end.

(** [vals] are the values at the field's path. An array value also offers
    its elements; [null] also matches a missing field. *)
Definition eq_holds (vals : list value) (v : value) : bool :=
  existsb (value_eqb v) (vals ++ flat_map array_elems vals)
  || (is_null v && Nat.eqb (List.length vals) 0).

Definition range_holds (vals : list value) (b : bound)
  (ok : comparison -> bool) : bool :=
  existsb (fun x => match cmp_bound x b with
                    | Some c => ok c
                    | None => false
                    end) (vals ++ flat_map array_elems vals).

Definition cond_holds (c : cond) (vals : list value) : bool :=
  match c with
  | CEq v => eq_holds vals v
  | CIn vs => existsb (eq_holds vals) vs
  | CGt b => range_holds vals b (fun c => match c with Gt => true | _ => false end)
  | CGte b => range_holds vals b (fun c => match c with Lt => false | _ => true end)
  | CLt b => range_holds vals b (fun c => match c with Lt => true | _ => false end)
  | CLte b => range_holds vals b (fun c => match c with Gt => false | _ => true end)
  end.

Definition clause_holds (v : value) (pc : string * cond) : bool :=
  cond_holds (snd pc) (path_values (split_path (fst pc)) v).

Definition matches_doc (q : query) (d : document) : bool :=
  forallb (clause_holds (VDoc d)) q.

(** [$elemMatch] with field conditions: only elements that are documents
    can match. *)
Definition elem_matches (q : query) (e : value) : bool :=
  match e with
  | VDoc d => matches_doc q d
  | _ => false
  end.

(** ** Projections *)

Inductive projection : Type :=
| PAll                                       (* no projection *)
| PElemMatch (field : string) (q : query).   (* {field: {'$elemMatch': q}} *)

(** An [$elemMatch] projection keeps [_id] and, when some element of the
    array matches, the field holding that first element alone; when none
    matches the field is left out. *)
Definition project (p : projection) (d : document) : document :=
  match p with
  | PAll => d
  | PElemMatch f q =>
      let base := match dict_get "_id" d with
                  | Some i => [("_id", i)]
                  | None => []
                  end in
      match dict_get f d with
      | Some (VArr l) =>
          match find (elem_matches q) l with
          | Some e => base ++ [(f, VArr [e])]
          | None => base
          end
      | _ => base
      end
  end.

Definition find_all (q : query) (p : projection) (c : collection)
  : list document :=
  map (project p) (filter (matches_doc q) c).

Definition find_one (q : query) (p : projection) (c : collection)
  : option document :=
  option_map (project p) (find (matches_doc q) c).

(** [cursor.to_list(length=n)]: at most [n] documents. *)
Definition to_list {A} (n : nat) (l : list A) : list A := firstn n l.

(** ** Update operators *)

(** The [$sort] modifier orders array elements by one field. Missing and
    [null] keys come first, then numbers, then strings. *)
Definition sort_key (f : string) (e : value) : option value :=
  match e with
  | VDoc d => dict_get f d
  | _ => None
  end.

Definition key_rank (k : option value) : nat :=
  match k with
  | None | Some VNull => 0
  | Some (VInt _) => 1
  | Some (VStr _) => 2
  | Some (VDoc _) => 3
  | Some (VArr _) => 4
  end.

Definition key_leb (a b : option value) : bool :=
  match a, b with
  | Some (VInt x), Some (VInt y) => Z.leb x y
  | Some (VStr s), Some (VStr t) =>
      match String.compare s t with Gt => false | _ => true end
  | _, _ => Nat.leb (key_rank a) (key_rank b)
  end.

Section Sorting.
Context {A : Type} (leb : A -> A -> bool).

(** Stable insertion sort. *)
Fixpoint insert_sorted (x : A) (l : list A) : list A :=
  match l with
  | [] => [x]
  | y :: l' => if leb x y then x :: l else y :: insert_sorted x l'
  end.

Definition sort_by (l : list A) : list A :=
  fold_right insert_sorted [] l.

End Sorting.

(** [dir] is the [1] or [-1] of the sort specification. *)
Definition sort_elems (f : string) (dir : Z) (l : list value) : list value :=
  if Z.eqb dir 1
  then sort_by (fun a b => key_leb (sort_key f a) (sort_key f b)) l
  else sort_by (fun a b => key_leb (sort_key f b) (sort_key f a)) l.

Inductive update_op : Type :=
| USet (fields : list (string * value))   (* {'$set': {path: value, ...}} *)
| UInc (fields : list (string * Z))       (* {'$inc': {path: amount, ...}} *)
| UPush (field : string) (each : list value) (sort : string * Z).
    (* {'$push': {field: {'$each': each, '$sort': {f: dir}}}} *)

Fixpoint list_set {A} (i : nat) (x : A) (l : list A) : list A :=
  match l, i with
  | [], _ => []
  | _ :: l', O => x :: l'
  | y :: l', S i' => y :: list_set i' x l'
  end.

Definition dollar_prefixed (seg : string) : bool :=
  match seg with
  | String c _ => Ascii.eqb c "$"%char
  | EmptyString => false
  end.

(** Rewrites the value at the end of a path. [pos] is the array index the
    positional segment [$] stands for; [cur] is the value found so far, if
    any. A missing field on the way is created as an embedded document. *)
Fixpoint modify_path (pos : option nat) (f : option value -> outcome value)
  (segs : list string) (cur : option value) {struct segs} : outcome value :=
  match segs with
  | [] => f cur
  | seg :: rest =>
      if String.eqb seg "" then Raise WriteError
      else if String.eqb seg "$" then
        match cur, pos with
        | Some (VArr l), Some i =>
            match nth_error l i with
            | Some e =>
                obind (modify_path pos f rest (Some e))
                      (fun r => Ok (VArr (list_set i r l)))
            | None => Raise WriteError
            end
        | _, _ => Raise WriteError
        end
      else if dollar_prefixed seg then Raise WriteError
      else
        match cur with
        | None =>
            obind (modify_path pos f rest None)
                  (fun r => Ok (VDoc [(seg, r)]))
        | Some (VDoc d) =>
            obind (modify_path pos f rest (dict_get seg d))
                  (fun r => Ok (VDoc (dict_set seg r d)))
        | Some (VArr _) => Raise Unmodelled
        | Some _ => Raise WriteError
        end
  end.

Definition modify_field (pos : option nat) (f : option value -> outcome value)
  (path : string) (d : document) : outcome document :=
  obind (modify_path pos f (split_path path) (Some (VDoc d)))
        (fun r => match r with
                  | VDoc d' => Ok d'
                  | _ => Raise WriteError
                  end).

Definition set_to (v : value) (_ : option value) : outcome value := Ok v.

(** ** The integer range of the wire format

    An integer is stored in at most 8 bytes, signed. *)
Definition int64 (n : Z) : bool :=
  Z.leb (- 2 ^ 63) n && Z.leb n (2 ^ 63 - 1).

(** What the driver can encode: every integer in the value is within the
    range. *)
Fixpoint encodable (v : value) : bool :=
  match v with
  | VInt n => int64 n
  | VDoc d =>
      (fix fields (l : list (string * value)) : bool :=
         match l with
         | [] => true
         | (_, x) :: l' => encodable x && fields l'
         end) d
  | VArr l =>
      (fix elems (l : list value) : bool :=
         match l with
         | [] => true
         | x :: l' => encodable x && elems l'
         end) l
  | _ => true
  end.

(** [$inc] creates a missing field and rejects one that is not a number;
    the server refuses an increment whose result leaves the range. *)
Definition inc_by (n : Z) (cur : option value) : outcome value :=
  match cur with
  | None => Ok (VInt n)
  | Some (VInt m) =>
      if int64 (m + n) then Ok (VInt (m + n)) else Raise WriteError
  | Some _ => Raise WriteError
  end.

Definition is_doc (v : value) : bool :=
  match v with
  | VDoc _ => true
  | _ => false
  end.

(** [$push] with [$each] and [$sort]: append, then sort the whole array. *)
Definition push_sorted (each : list value) (sort : string * Z)
  (cur : option value) : outcome value :=
  if negb (forallb is_doc each) then Raise WriteError
  else if negb (Z.eqb (snd sort) 1 || Z.eqb (snd sort) (-1)) then Raise WriteError
  else match split_path (fst sort) with
       | [f] =>
           match cur with
           | None => Ok (VArr (sort_elems f (snd sort) each))
           | Some (VArr l) => Ok (VArr (sort_elems f (snd sort) (l ++ each)))
           | Some _ => Raise WriteError
           end
       | _ => Raise Unmodelled
       end.

Fixpoint fold_fields {B} (step : string -> B -> document -> outcome document)
  (fields : list (string * B)) (d : document) : outcome document :=
  match fields with
  | [] => Ok d
  | (p, b) :: rest => obind (step p b d) (fold_fields step rest)
  end.

Definition apply_op (pos : option nat) (u : update_op) (d : document)
  : outcome document :=
  match u with
  | USet fields =>
      fold_fields (fun p v => modify_field pos (set_to v) p) fields d
  | UInc fields =>
      fold_fields (fun p n => modify_field pos (inc_by n) p) fields d
  | UPush field each sort =>
      modify_field pos (push_sorted each sort) field d
  end.

(** The primary key cannot be changed by an update. *)
Definition apply_update (pos : option nat) (u : update_op) (d : document)
  : outcome document :=
  obind (apply_op pos u d)
        (fun d' => if opt_value_eqb (dict_get "_id" d') (dict_get "_id" d)
                   then Ok d' else Raise WriteError).

Fixpoint find_index {A} (test : A -> bool) (l : list A) : option nat :=
  match l with
  | [] => None
  | x :: l' => if test x then Some O else option_map S (find_index test l')
  end.

(** The index [$] stands for: the first element of the queried array that
    satisfies the query's condition on that array. *)
Definition clause_position (d : document) (pc : string * cond) : option nat :=
  match split_path (fst pc) with
  | f :: rest =>
      match dict_get f d with
      | Some (VArr l) =>
          find_index (fun e => cond_holds (snd pc)
                                 (match rest with
                                  | [] => [e]
                                  | _ => match e with
                                         | VDoc _ => path_values rest e
                                         | _ => []
                                         end
                                  end)) l
      | _ => None
      end
  | [] => None
  end.

Fixpoint positional (q : query) (d : document) : option nat :=
  match q with
  | [] => None
  | pc :: q' =>
      match clause_position d pc with
      | Some i => Some i
      | None => positional q' d
      end
  end.

(** Applies [f] to the first document that passes [test]; [None] when no
    document does. *)
Fixpoint update_first (test : document -> bool)
  (f : document -> outcome document) (c : collection)
  : option (outcome collection) :=
  match c with
  | [] => None
  | d :: c' =>
      if test d then Some (obind (f d) (fun d' => Ok (d' :: c')))
      else option_map (fun r => obind r (fun c'' => Ok (d :: c'')))
                      (update_first test f c')
  end.

(** The document an upsert starts from: the equality conditions of the
    query. *)
Fixpoint upsert_base (q : query) (d : document) : outcome document :=
  match q with
  | [] => Ok d
  | (p, CEq v) :: q' =>
      obind (modify_field None (set_to v) p d) (upsert_base q')
  | _ :: q' => upsert_base q' d
  end.

Definition has_id (i : value) (d : document) : bool :=
  opt_value_eqb (dict_get "_id" d) (Some i).

Definition encodable_fields (d : document) : bool :=
  forallb (fun kv => encodable (snd kv)) d.

(** The values an update sends to be written: those of [$set] and the
    amounts of [$inc]. The entries of [$push] are not examined (see the
    limits of the model). *)
Definition sendable (u : update_op) : bool :=
  match u with
  | USet fields => encodable_fields fields
  | UInc fields => forallb (fun kv => int64 (snd kv)) fields
  | UPush _ _ _ => true
  end.

(** The values an upsert takes from its query. *)
Definition base_encodable (q : query) : bool :=
  forallb (fun pc => match snd pc with
                     | CEq v => encodable v
                     | _ => true
                     end) q.

(** [collection.update(q, u, upsert=...)] and [update_one(q, u)]: one
    document is updated, the first that matches. With [upsert], a query that
    matches nothing inserts a new document. The driver encodes the command
    before it sends it: an integer outside the range raises [OverflowError]
    and the store is not reached. *)
Definition coll_update (q : query) (u : update_op) (upsert : bool)
  (c : collection) : outcome collection :=
  if sendable u && (negb upsert || base_encodable q) then
    match update_first (matches_doc q)
                       (fun d => apply_update (positional q d) u d) c with
    | Some r => r
    | None =>
        if upsert then
          obind (upsert_base q [])
                (fun base =>
                   obind (apply_op None u base)
                         (fun d' =>
                            match dict_get "_id" d' with
                            | None => Raise Unmodelled
                            | Some i =>
                                if existsb (has_id i) c
                                then Raise DuplicateKeyError
                                else Ok (c ++ [d'])
                            end))
        else Ok c
    end
  else Raise OverflowError.

(** [insert_one]. *)
Definition coll_insert (d : document) (c : collection) : outcome collection :=
  match dict_get "_id" d with
  | None => Raise Unmodelled
  | Some i =>
      if existsb (has_id i) c then Raise DuplicateKeyError else Ok (c ++ [d])
  end.

(** ** Sampling *)

Definition remove_nth {A} (i : nat) (l : list A) : list A :=
  firstn i l ++ skipn (S i) l.

(** [$sample]: [size] draws without replacement; the [k]-th draw is decided
    by the random number [rnd k]. *)
Fixpoint sample {A} (size : nat) (l : list A) (rnd : nat -> nat) (k : nat)
  : list A :=
  match size with
  | O => []
  | S size' =>
      match l with
      | [] => []
      | x :: _ =>
          let i := Nat.modulo (rnd k) (List.length l) in
          nth i l x :: sample size' (remove_nth i l) rnd (S k)
      end
  end.

End Store.
Export Store.

(* ================================================================== *)
(** * The world the controllers run in *)
(* ================================================================== *)

Module Eff.

(** The two collections, the heap of dictionaries the caller shares with the
    controller, the clock and the store's source of randomness. [clock k]
    is the value of [int(round(time.time() * 1000))] at its [k]-th
    evaluation, in milliseconds since the epoch. *)
Record world : Type := mkWorld {
  cards : collection;
  users : collection;
  heap : list document;
  clock : nat -> Z;
  ticks : nat;
  rnd : nat -> nat;
  draws : nat
}.

Definition with_cards (c : collection) (w : world) : world :=
  mkWorld c (users w) (heap w) (clock w) (ticks w) (rnd w) (draws w).
Definition with_users (u : collection) (w : world) : world :=
  mkWorld (cards w) u (heap w) (clock w) (ticks w) (rnd w) (draws w).
Definition with_heap (h : list document) (w : world) : world :=
  mkWorld (cards w) (users w) h (clock w) (ticks w) (rnd w) (draws w).
Definition with_ticks (t : nat) (w : world) : world :=
  mkWorld (cards w) (users w) (heap w) (clock w) t (rnd w) (draws w).
Definition with_draws (n : nat) (w : world) : world :=
  mkWorld (cards w) (users w) (heap w) (clock w) (ticks w) (rnd w) n.

(** A computation returns or raises, and leaves a world behind either way:
    what was written before an exception stays written. *)
Definition M (A : Type) : Type := world -> outcome A * world.

Definition ret {A} (a : A) : M A := fun w => (Ok a, w).
Definition raise {A} (e : exn) : M A := fun w => (Raise e, w).
Definition bind {A B} (m : M A) (k : A -> M B) : M B :=
  fun w => match m w with
           | (Ok a, w') => k a w'
           | (Raise e, w') => (Raise e, w')
           end.
Definition lift {A} (o : outcome A) : M A := fun w => (o, w).

Declare Scope eff_scope.
Delimit Scope eff_scope with eff.
Notation "x <- m ;; k" := (bind m (fun x => k))
  (at level 100, m at next level, right associativity) : eff_scope.
Notation "m ;;; k" := (bind m (fun _ => k))
  (at level 100, right associativity) : eff_scope.
Local Open Scope eff_scope.

(** ** The heap *)

Definition deref (r : nat) : M document :=
  fun w => match nth_error (heap w) r with
           | Some d => (Ok d, w)
           | None => (Raise BadReference, w)
           end.

Definition assign (r : nat) (d : document) : M unit :=
  fun w => (Ok tt, with_heap (list_set r d (heap w)) w).

(** [copy.deepcopy(r)]: a new dictionary with the same contents. *)
Definition deepcopy (r : nat) : M nat :=
  d <- deref r ;;
  fun w => (Ok (List.length (heap w)), with_heap (heap w ++ [d]) w).

(** [r[k]] *)
Definition getitem (r : nat) (k : string) : M value :=
  d <- deref r ;; lift (subscript (VDoc d) k).

(** [r[k] = v] *)
Definition setitem (r : nat) (k : string) (v : value) : M unit :=
  d <- deref r ;; assign r (dict_set k v d).

(** [del r[k]] *)
Definition delitem (r : nat) (k : string) : M unit :=
  d <- deref r ;;
  match dict_get k d with
  | Some _ => assign r (dict_del k d)
  | None => raise (KeyError k)
  end.

(** ** The clock *)

Definition time_ms : M Z :=
  fun w => (Ok (clock w (ticks w)), with_ticks (S (ticks w)) w).

(** ** Store round trips *)

Definition cards_update (q : query) (u : update_op) (upsert : bool) : M unit :=
  fun w => match coll_update q u upsert (cards w) with
           | Ok c => (Ok tt, with_cards c w)
           | Raise e => (Raise e, w)
           end.

Definition users_update (q : query) (u : update_op) (upsert : bool) : M unit :=
  fun w => match coll_update q u upsert (users w) with
           | Ok c => (Ok tt, with_users c w)
           | Raise e => (Raise e, w)
           end.

Definition users_insert_one (d : document) : M unit :=
  fun w => match coll_insert d (users w) with
           | Ok c => (Ok tt, with_users c w)
           | Raise e => (Raise e, w)
           end.

Definition users_find (q : query) (p : projection) : M (list document) :=
  fun w => (Ok (find_all q p (users w)), w).

Definition users_find_one (q : query) (p : projection) : M (option document) :=
  fun w => (Ok (find_one q p (users w)), w).

(** [aggregate([{'$match': q}, {'$sample': {'size': size}}])]: a negative
    size is rejected. *)
Definition cards_match_sample (q : query) (size : Z) : M (list document) :=
  fun w =>
    if Z.ltb size 0 then (Raise OperationFailure, w)
    else (Ok (sample (Z.to_nat size) (filter (matches_doc q) (cards w))
                     (rnd w) (draws w)),
          with_draws (draws w + Z.to_nat size) w).

End Eff.
Export Eff.
Local Open Scope eff_scope.

(* ================================================================== *)
(** * CardController *)
(* ================================================================== *)

Module Cards.

(** [upsert_card(card)]; [card] is the caller's dictionary, by reference. *)
Definition upsert_card (card : nat) : M unit :=
  card <- deepcopy card ;;
  v <- getitem card "id" ;;
  setitem card "_id" v ;;;
  delitem card "id" ;;;
  i <- getitem card "_id" ;;
  let doc := [("_id", CEq i)] in
  fields <- deref card ;;
  let setCard := USet fields in
  cards_update doc setCard true.

(** [get_random_cards(filters, count)] *)
Definition get_random_cards (filters : query) (count : Z)
  : M (list document) :=
  cursor <- cards_match_sample filters count ;;
  ret (to_list 100 cursor).

End Cards.

(* ================================================================== *)
(** * UserController *)
(* ================================================================== *)

Module Users.

Definition by_id (user_id : string) : query := [("_id", CEq (VStr user_id))].

(** [insert_user(user_id)] *)
Definition insert_user (user_id : string) : M unit :=
  users_insert_one [("_id", VStr user_id); ("album", VArr [])].

(** [find_user(user_id)] *)
Definition find_user (user_id : string) : M (option document) :=
  users_find_one (by_id user_id) PAll.

(** [get_user_album(user_id)] *)
Definition get_user_album (user_id : string) : M value :=
  user_doc <- find_user user_id ;;
  match user_doc with
  | None => ret (VArr [])
  | Some d =>
      if negb (truthy (VDoc d)) then ret (VArr [])
      else lift (subscript (VDoc d) "album")
  end.

(** [get_card_from_album(user_id, card_id)] *)
Definition get_card_from_album (user_id : string) (card_id : Z)
  : M (option value) :=
  let search_filter := [("id", CEq (VInt card_id))] in
  cursor <- users_find (by_id user_id) (PElemMatch "album" search_filter) ;;
  let search := to_list 10000 cursor in
  match search with
  | d :: _ =>
      match dict_get "album" d with
      | Some a => e <- lift (first_item a) ;; ret (Some e)
      | None => ret None
      end
  | [] => ret None
  end.

(** [_user_has_card(user_id, card_id)]; [card_id] is whatever the card's
    [_id] holds. *)
Definition _user_has_card (user_id : string) (card_id : value) : M bool :=
  let search_filter := [("id", CEq card_id)] in
  search <- users_find_one (by_id user_id) (PElemMatch "album" search_filter) ;;
  match search with
  | None => raise AttributeError
  | Some d => ret (Nat.ltb 1 (List.length (keys d)))
  end.

(** The body of the loop of [add_to_user_album]. *)
Definition add_card (user_id : string) (idolized : bool) (card : value)
  : M unit :=
  card_id <- lift (subscript card "_id") ;;
  has <- _user_has_card user_id card_id ;;
  if negb has then
    now <- time_ms ;;
    let new_card := VDoc [("id", card_id);
                          ("unidolized_count", VInt 1);
                          ("idolized_count", VInt 0);
                          ("time_aquired", VInt now)] in
    users_update (by_id user_id) (UPush "album" [new_card] ("id", 1)) false
  else if idolized then
    users_update [("_id", CEq (VStr user_id)); ("album.id", CEq card_id)]
                 (UInc [("album.$.idolized_count", 1)]) false
  else
    users_update [("_id", CEq (VStr user_id)); ("album.id", CEq card_id)]
                 (UInc [("album.$.unidolized_count", 1)]) false.

(** [add_to_user_album(user_id, new_cards, idolized)] *)
Fixpoint add_to_user_album (user_id : string) (new_cards : list value)
  (idolized : bool) : M unit :=
  match new_cards with
  | [] => ret tt
  | card :: rest =>
      add_card user_id idolized card ;;;
      add_to_user_album user_id rest idolized
  end.

(** [remove_from_user_album(user_id, card_id, idolized, count)] *)
Definition remove_from_user_album (user_id : string) (card_id : Z)
  (idolized : bool) (count : Z) : M bool :=
  card <- get_card_from_album user_id card_id ;;
  match card with
  | None => ret false
  | Some card =>
      if negb (truthy card) then ret false
      else
        new_unidolized_count <- lift (subscript card "unidolized_count") ;;
        new_idolized_count <- lift (subscript card "idolized_count") ;;
        counts <- lift (if idolized
                        then obind (py_sub new_idolized_count count)
                               (fun n => Ok (new_unidolized_count, n))
                        else obind (py_sub new_unidolized_count count)
                               (fun n => Ok (n, new_idolized_count))) ;;
        users_update
          [("_id", CEq (VStr user_id)); ("album.id", CEq (VInt card_id))]
          (USet [("album.$.unidolized_count", fst counts);
                 ("album.$.idolized_count", snd counts)]) false ;;;
        ret true
  end.

End Users.

(* ================================================================== *)
(** * The document store: projections by field, distinct, delete *)
(* ================================================================== *)

Module StoreMore.

(** ** Inclusion projections *)

(** [paths] are the field paths of a projection [{path: 1, ...}], split
    into segments. A field is kept whole when a path names it, and kept in
    part when some path goes below it. *)
Definition whole_field (k : string) (paths : list (list string)) : bool :=
  existsb (fun p => match p with
                    | [k'] => String.eqb k k'
                    | _ => false
                    end) paths.

Definition below_field (k : string) (paths : list (list string))
  : list (list string) :=
  flat_map (fun p => match p with
                     | k' :: s :: r => if String.eqb k k' then [s :: r] else []
                     | _ => []
                     end) paths.

(** The part of a value that paths going below its field keep: of an
    embedded document the fields they name, of an array its elements
    treated the same way, of anything else nothing. *)
Fixpoint include (paths : list (list string)) (v : value) {struct v}
  : option value :=
  match v with
  | VDoc d =>
      Some (VDoc
        ((fix fields (d : list (string * value)) : list (string * value) :=
            match d with
            | [] => []
            | (k, x) :: d' =>
                if whole_field k paths then (k, x) :: fields d'
                else match below_field k paths with
                     | [] => fields d'
                     | sub =>
                         match include sub x with
                         | Some x' => (k, x') :: fields d'
                         | None => fields d'
                         end
                     end
            end) d))
  | VArr l =>
      Some (VArr
        ((fix elems (l : list value) : list value :=
            match l with
            | [] => []
            | e :: l' =>
                match include paths e with
                | Some e' => e' :: elems l'
                | None => elems l'
                end
            end) l))
  | _ => None
  end.

(** The same on a document, field by field in the stored order. *)
Fixpoint include_doc (paths : list (list string)) (d : document) : document :=
  match d with
  | [] => []
  | (k, x) :: d' =>
      if whole_field k paths then (k, x) :: include_doc paths d'
      else match below_field k paths with
           | [] => include_doc paths d'
           | sub =>
               match include sub x with
               | Some x' => (k, x') :: include_doc paths d'
               | None => include_doc paths d'
               end
           end
  end.

(** A projection that lists fields to show always shows [_id] too. *)
Definition show_fields (show : list string) (d : document) : document :=
  include_doc (["_id"] :: map split_path show) d.

(** [find(q, show)] *)
Definition find_fields (q : query) (show : list string) (c : collection)
  : list document :=
  map (show_fields show) (filter (matches_doc q) c).

(** ** Distinct values *)

(** [distinct] takes the elements of an array value one by one. *)
Definition unwind (v : value) : list value :=
  match v with
  | VArr l => l
  | _ => [v]
  end.

Fixpoint distinct_values (l : list value) : list value :=
  match l with
  | [] => []
  | x :: l' =>
      x :: filter (fun y => negb (value_eqb x y)) (distinct_values l')
  end.

(** [distinct(key)] *)
Definition coll_distinct (key : string) (c : collection) : list value :=
  distinct_values
    (flat_map (fun d => flat_map unwind
                          (path_values (split_path key) (VDoc d))) c).

(** ** Deleting *)

Fixpoint delete_first {A} (test : A -> bool) (l : list A) : list A :=
  match l with
  | [] => []
  | x :: l' => if test x then l' else x :: delete_first test l'
  end.

(** [delete_one(q)]: the first matching document goes, if there is one. *)
Definition coll_delete_one (q : query) (c : collection) : collection :=
  delete_first (matches_doc q) c.

End StoreMore.
Export StoreMore.

(* ================================================================== *)
(** * CardController and UserController: the other operations *)
(* ================================================================== *)

Module CardQueries.

Definition cards_find_fields (q : query) (show : list string)
  : M (list document) :=
  fun w => (Ok (find_fields q show (cards w)), w).

Definition cards_distinct (key : string) : M (list value) :=
  fun w => (Ok (coll_distinct key (cards w)), w).

(** [get_cards(card_ids)] *)
Definition get_cards (card_ids : list value) : M (list document) :=
  let search := [("_id", CIn card_ids)] in
  let show := ["idol.name"; "idol.year"; "idol.main_unit"; "idol.sub_unit";
               "rarity"; "attribute"; "card_image"; "card_idolized_image";
               "round_card_image"; "round_card_idolized_image"] in
  cursor <- cards_find_fields search show ;;
  ret (to_list 10000 cursor).

(** [get_card(card_id)] *)
Definition get_card (card_id : Z) : M (option document) :=
  cards <- get_cards [VInt card_id] ;;
  match cards with
  | c :: _ => ret (Some c)
  | [] => ret None
  end.

(** [get_card_ids()] *)
Definition get_card_ids : M (list value) := cards_distinct "_id".

End CardQueries.

Module UserAdmin.

Definition users_delete_one (q : query) : M unit :=
  fun w => (Ok tt, with_users (coll_delete_one q (users w)) w).

Definition users_distinct (key : string) : M (list value) :=
  fun w => (Ok (coll_distinct key (users w)), w).

(** [delete_user(user_id)] *)
Definition delete_user (user_id : string) : M unit :=
  users_delete_one (Users.by_id user_id).

(** [get_all_user_ids()] *)
Definition get_all_user_ids : M (list value) := users_distinct "_id".

End UserAdmin.

(* ================================================================== *)
(** * Vocabulary of the properties *)
(* ================================================================== *)

Module Vocabulary.

(** The collection after its first document passing [test] is replaced. *)
Fixpoint replace_first {A} (test : A -> bool) (x : A) (l : list A) : list A :=
  match l with
  | [] => []
  | y :: l' => if test y then x :: l' else y :: replace_first test x l'
  end.

(** The store never holds an array as a primary key. *)
Definition valid_id (d : document) : bool :=
  match dict_get "_id" d with
  | Some (VArr _) => false
  | _ => true
  end.

Definition valid_ids (c : collection) : bool := forallb valid_id c.

Fixpoint has_dot (s : string) : bool :=
  match s with
  | EmptyString => false
  | String c s' => Ascii.eqb c "."%char || has_dot s'
  end.

(** A field name that the store reads as a name and not as a path or an
    operator: not empty, no dot, no leading dollar sign. *)
Definition plain_key (k : string) : bool :=
  negb (String.eqb k "") && negb (dollar_prefixed k) && negb (has_dot k).

(** The catalog entry a lookup by card ID returns. *)
Definition card_by_id (n : Z) (c : collection) : option document :=
  find_one [("_id", CEq (VInt n))] PAll c.

(** What [$set] leaves at a field: the new value when the update names the
    field, the stored value otherwise. *)
Definition merged (new old : option value) : option value :=
  match new with
  | Some x => Some x
  | None => old
  end.

(** The dictionary [upsert_card] sends: the card with [id] renamed to
    [_id]. *)
Definition rekeyed (v : value) (c : document) : document :=
  dict_del "id" (dict_set "_id" v c).

(** ** Albums *)

(** What [find_user] returns. *)
Definition stored_user (user_id : string) (w : world) : option document :=
  find_one (Users.by_id user_id) PAll (users w).

(** The query [{'id': card_id}] that picks an album entry. *)
Definition entry_query (card_id : Z) : query := [("id", CEq (VInt card_id))].

(** The album entry for a card: the first element that matches, and its
    position. *)
Definition entry_for (card_id : Z) (al : list value) : option value :=
  find (elem_matches (entry_query card_id)) al.

Definition entry_index (card_id : Z) (al : list value) : option nat :=
  find_index (elem_matches (entry_query card_id)) al.

Definition album_entry (user_id : string) (card_id : Z) (w : world)
  : option value :=
  match stored_user user_id w with
  | Some d =>
      match dict_get "album" d with
      | Some (VArr al) => entry_for card_id al
      | _ => None
      end
  | None => None
  end.

(** The users collection after the album of [user_id] is replaced. *)
Definition with_album (user_id : string) (d : document) (al : list value)
  (w : world) : world :=
  with_users (replace_first (matches_doc (Users.by_id user_id))
                            (dict_set "album" (VArr al) d) (users w)) w.






(** The counter [add_to_user_album] and [remove_from_user_album] pick. *)
Definition counter (idolized : bool) : string :=
  if idolized then "idolized_count" else "unidolized_count".

(** The values the path [id] reaches in one album element. *)
Definition id_values (e : value) : list value :=
  match e with
  | VDoc ed =>
      match dict_get "id" ed with
      | Some x => [x]
      | None => []
      end
  | _ => []
  end.




End Vocabulary.
Export Vocabulary.

(* ================================================================== *)
(** * Concrete worlds *)
(* ================================================================== *)

Module Examples.

Definition empty_world : world :=
  mkWorld [] [] [] (fun k => 1500000000000 + Z.of_nat k) 0
          (fun k => k) 0.

Definition card_1_first : document :=
  [("id", VInt 1); ("rarity", VStr "R"); ("attribute", VStr "Smile")].

Definition card_1_second : document :=
  [("id", VInt 1); ("rarity", VStr "SR")].

(** The caller holds two versions of card 1; the catalog is empty. *)
Definition two_versions : world :=
  with_heap [card_1_first; card_1_second] empty_world.

(** The same after the first version has been upserted. *)
Definition catalog_with_card_1 : world :=
  snd (Cards.upsert_card 0 two_versions).

Definition card_5 : value := VDoc [("_id", VInt 5); ("rarity", VStr "R")].

Definition card_3 : value := VDoc [("_id", VInt 3); ("rarity", VStr "SR")].

(** User [u1] freshly created. *)
Definition fresh_user : world :=
  snd (Users.insert_user "u1" empty_world).

(** User [u1] after card 5 was added once. *)
Definition user_with_card_5 : world :=
  snd (Users.add_to_user_album "u1" [card_5] false fresh_user).

Definition entry_5 : document :=
  [("id", VInt 5); ("unidolized_count", VInt 1); ("idolized_count", VInt 0);
   ("time_aquired", VInt 1500000000000)].

Definition u1_doc : document :=
  [("_id", VStr "u1"); ("album", VArr [VDoc entry_5])].



(** Ten cards, the even ones rare. *)
Definition small_catalog : world :=
  with_cards
    (map (fun i => [("_id", VInt (Z.of_nat i));
                    ("rarity", VStr (if Nat.even i then "R" else "SR"))])
         (seq 0 10))
    empty_world.

(** A catalog of 101 cards. *)
Definition large_catalog : world :=
  with_cards (map (fun i => [("_id", VInt (Z.of_nat i))]) (seq 0 101))
             empty_world.

End Examples.
Export Examples.

(* ================================================================== *)
(** * Vocabulary of the further properties *)
(* ================================================================== *)

Module MoreVocabulary.


(** From [w] to [w'] nothing changed but, at most, the document of
    [user_id]: the catalog and the heap are the same, no user document was
    added or dropped, and every other user is found as before. *)
Definition untouched_but (user_id : string) (w w' : world) : Prop :=
  cards w' = cards w /\
  heap w' = heap w /\
  List.length (users w') = List.length (users w) /\
  (forall uid', uid' <> user_id -> stored_user uid' w' = stored_user uid' w).


Definition shown_whole : list string :=
  ["_id"; "rarity"; "attribute"; "card_image"; "card_idolized_image";
   "round_card_image"; "round_card_idolized_image"].

Definition shown_idol : list string :=
  ["name"; "year"; "main_unit"; "sub_unit"].

(** The segments of the projection of [get_cards]. *)
Definition card_paths : list (list string) :=
  [["_id"]; ["idol"; "name"]; ["idol"; "year"]; ["idol"; "main_unit"];
   ["idol"; "sub_unit"]; ["rarity"]; ["attribute"]; ["card_image"];
   ["card_idolized_image"]; ["round_card_image"];
   ["round_card_idolized_image"]].

(** A card as [get_cards] returns it. *)
Definition shown_card (d : document) : document := include_doc card_paths d.

(** The paths below [idol] in that projection. *)
Definition idol_paths : list (list string) :=
  [["name"]; ["year"]; ["main_unit"]; ["sub_unit"]].

(** The document [$set] with plain field names leaves: the fields written
    one after the other. *)
Definition set_all (fields : document) (d : document) : document :=
  fold_left (fun acc kv => dict_set (fst kv) (snd kv) acc) fields d.

(** The catalog after [upsert_card] of a card with ID [n] whose rewritten
    dictionary is [fields]. *)
Definition upserted (n : Z) (fields : document) (c : collection)
  : collection :=
  match find (matches_doc [("_id", CEq (VInt n))]) c with
  | Some old =>
      replace_first (matches_doc [("_id", CEq (VInt n))])
                    (set_all fields old) c
  | None => c ++ [set_all fields [("_id", VInt n)]]
  end.


End MoreVocabulary.
Export MoreVocabulary.

(* ================================================================== *)
(** * Facts about values, dictionaries and lists *)
(* ================================================================== *)

Module Facts.

Lemma value_eqb_refl : forall v, value_eqb v v = true.
Proof.
  fix IH 1. intros [| n | s | d | l]; simpl.
  - reflexivity.
  - apply Z.eqb_refl.
  - apply String.eqb_refl.
  - induction d as [| [k v] d IHd]; [reflexivity |].
    rewrite String.eqb_refl, IH, IHd. reflexivity.
  - induction l as [| x l IHl]; [reflexivity |].
    rewrite IH, IHl. reflexivity.
Qed.

Lemma value_eqb_int : forall n x, value_eqb (VInt n) x = true -> x = VInt n.
Proof.
  intros n [| m | s | d | l] H; simpl in H; try discriminate.
  apply Z.eqb_eq in H. now subst.
Qed.

Lemma value_eqb_str : forall s x, value_eqb (VStr s) x = true -> x = VStr s.
Proof.
  intros s [| m | t | d | l] H; simpl in H; try discriminate.
  apply String.eqb_eq in H. now subst.
Qed.

Lemma value_eqb_int_r : forall n x, value_eqb x (VInt n) = true -> x = VInt n.
Proof.
  intros n [| m | s | d | l] H; simpl in H; try discriminate.
  apply Z.eqb_eq in H. now subst.
Qed.

Lemma value_eqb_str_r : forall s x, value_eqb x (VStr s) = true -> x = VStr s.
Proof.
  intros s [| m | t | d | l] H; simpl in H; try discriminate.
  apply String.eqb_eq in H. now subst.
Qed.

Lemma dict_get_set : forall k k' v d,
  dict_get k (dict_set k' v d) =
  if String.eqb k k' then Some v else dict_get k d.
Proof.
  intros k k' v d. induction d as [| [k0 v0] d IH]; simpl.
  - reflexivity.
  - destruct (String.eqb k' k0) eqn:E1; simpl.
    + apply String.eqb_eq in E1. subst k0.
      destruct (String.eqb k k'); reflexivity.
    + destruct (String.eqb k k0) eqn:E2.
      * apply String.eqb_eq in E2. subst k0.
        rewrite String.eqb_sym, E1. reflexivity.
      * exact IH.
Qed.

Lemma dict_get_del_other : forall k k' d,
  String.eqb k k' = false -> dict_get k (dict_del k' d) = dict_get k d.
Proof.
  intros k k' d Hk. induction d as [| [k0 v0] d IH]; simpl.
  - reflexivity.
  - destruct (String.eqb k' k0) eqn:E1.
    + apply String.eqb_eq in E1. subst k0. now rewrite Hk.
    + simpl. now rewrite IH.
Qed.

Lemma dict_get_del_same : forall k d,
  NoDup (keys d) -> dict_get k (dict_del k d) = None.
Proof.
  intros k d. induction d as [| [k0 v0] d IH]; simpl; intros Hnd.
  - reflexivity.
  - inversion Hnd as [| ? ? Hnotin Hnd']; subst.
    destruct (String.eqb k k0) eqn:E.
    + apply String.eqb_eq in E. subst k0.
      clear IH Hnd Hnd'. induction d as [| [k1 v1] d IH]; simpl.
      * reflexivity.
      * destruct (String.eqb k k1) eqn:E1.
        -- apply String.eqb_eq in E1. subst k1. exfalso. apply Hnotin. now left.
        -- apply IH. intro Hin. apply Hnotin. now right.
    + simpl. rewrite E. now apply IH.
Qed.

Lemma dict_get_in_keys : forall k d v, dict_get k d = Some v -> In k (keys d).
Proof.
  intros k d v. induction d as [| [k0 v0] d IH]; simpl; [discriminate |].
  destruct (String.eqb k k0) eqn:E.
  - apply String.eqb_eq in E. now left.
  - intro H. right. now apply IH.
Qed.

Lemma dict_get_not_in_keys : forall k d, ~ In k (keys d) -> dict_get k d = None.
Proof.
  intros k d H. destruct (dict_get k d) eqn:E; [| reflexivity].
  exfalso. apply H. eapply dict_get_in_keys; eauto.
Qed.

Lemma nth_error_app_last : forall {A} (l : list A) x,
  nth_error (l ++ [x]) (List.length l) = Some x.
Proof.
  intros A l x. induction l; simpl; auto.
Qed.

Lemma list_set_app_last : forall {A} (l : list A) x y,
  list_set (List.length l) y (l ++ [x]) = l ++ [y].
Proof.
  intros A l x y. induction l; simpl; [reflexivity | now f_equal].
Qed.

Lemma list_set_length : forall {A} i (x : A) l,
  List.length (list_set i x l) = List.length l.
Proof.
  intros A i x l. revert i. induction l; intros [| i]; simpl; auto.
Qed.

Lemma nth_error_list_set_same : forall {A} i (x y : A) l,
  nth_error l i = Some y -> nth_error (list_set i x l) i = Some x.
Proof.
  intros A i x y l. revert i.
  induction l; intros [| i]; simpl; try discriminate; auto.
Qed.

Lemma nth_error_list_set_other : forall {A} i j (x : A) l,
  i <> j -> nth_error (list_set i x l) j = nth_error l j.
Proof.
  intros A i j x l. revert i j.
  induction l; intros [| i] [| j] H; simpl; try reflexivity.
  - contradiction.
  - apply IHl. congruence.
Qed.

Lemma keys_dict_set : forall k k' v d,
  In k (keys (dict_set k' v d)) <-> k = k' \/ In k (keys d).
Proof.
  intros k k' v d. induction d as [| [k0 v0] d IH]; simpl.
  - intuition.
  - destruct (String.eqb k' k0) eqn:E; simpl.
    + apply String.eqb_eq in E. subst k0. intuition.
    + rewrite IH. intuition.
Qed.

Lemma nodup_dict_set : forall k v d,
  NoDup (keys d) -> NoDup (keys (dict_set k v d)).
Proof.
  intros k v d. induction d as [| [k0 v0] d IH]; simpl; intro H.
  - constructor; [intros [] | constructor].
  - inversion H as [| ? ? Hnotin Hnd]; subst.
    destruct (String.eqb k k0) eqn:E; simpl.
    + apply String.eqb_eq in E. subst k0. now constructor.
    + constructor; [| now apply IH].
      fold (keys (dict_set k v d)). rewrite keys_dict_set.
      intros [-> | Hin]; [| contradiction].
      now rewrite String.eqb_refl in E.
Qed.

Lemma keys_dict_del : forall k k' d,
  In k (keys (dict_del k' d)) -> In k (keys d).
Proof.
  intros k k' d. induction d as [| [k0 v0] d IH]; simpl; [tauto |].
  destruct (String.eqb k' k0); simpl; intuition.
Qed.

Lemma nodup_dict_del : forall k d,
  NoDup (keys d) -> NoDup (keys (dict_del k d)).
Proof.
  intros k d. induction d as [| [k0 v0] d IH]; simpl; intro H; [constructor |].
  inversion H as [| ? ? Hnotin Hnd]; subst.
  destruct (String.eqb k k0); simpl; [assumption |].
  constructor; [| now apply IH].
  intro Hin. apply Hnotin. eapply keys_dict_del; eauto.
Qed.

Lemma split_path_plain : forall k, has_dot k = false -> split_path k = [k].
Proof.
  induction k as [| c k IH]; simpl; [reflexivity |].
  destruct (Ascii.eqb c "."%char); simpl; [discriminate |].
  intro H. now rewrite (IH H).
Qed.

Lemma plain_key_dollar : forall k,
  dollar_prefixed k = false -> String.eqb k "$" = false.
Proof.
  intros [| c k]; simpl; [reflexivity |].
  intro H. now rewrite H.
Qed.

End Facts.
Import Facts.

(* ================================================================== *)
(** * Facts about the store *)
(* ================================================================== *)

Module StoreFacts.

Lemma update_first_found : forall test f c d,
  find test c = Some d ->
  update_first test f c =
  Some (obind (f d) (fun d' => Ok (replace_first test d' c))).
Proof.
  intros test f c d. induction c as [| x c IH]; simpl; [discriminate |].
  destruct (test x) eqn:E.
  - intros [= ->]. reflexivity.
  - intro H. rewrite (IH H). simpl. destruct (f d); reflexivity.
Qed.

Lemma update_first_none : forall test f c,
  find test c = None -> update_first test f c = None.
Proof.
  intros test f c. induction c as [| x c IH]; simpl; [reflexivity |].
  destruct (test x); [discriminate |].
  intro H. now rewrite (IH H).
Qed.

Lemma find_replace_first : forall {A} (test : A -> bool) c d d',
  find test c = Some d -> test d' = true ->
  find test (replace_first test d' c) = Some d'.
Proof.
  intros A test c d d'. induction c as [| x c IH]; simpl; [discriminate |].
  destruct (test x) eqn:E; simpl.
  - intros _ H. now rewrite H.
  - intros H H'. rewrite E. now apply IH.
Qed.

Lemma replace_first_length : forall {A} (test : A -> bool) x l,
  List.length (replace_first test x l) = List.length l.
Proof.
  intros A test x l. induction l as [| y l IH]; simpl; [reflexivity |].
  destruct (test y); simpl; congruence.
Qed.

Lemma filter_replace_first_length : forall {A} (test : A -> bool) d' c,
  test d' = true ->
  List.length (filter test (replace_first test d' c)) =
  List.length (filter test c).
Proof.
  intros A test d' c Hd'. induction c as [| x c IH]; simpl; [reflexivity |].
  destruct (test x) eqn:E; simpl.
  - now rewrite Hd'.
  - now rewrite E.
Qed.

Lemma find_some_filter : forall {A} (test : A -> bool) c d,
  find test c = Some d -> exists rest, filter test c = d :: rest.
Proof.
  intros A test c d. induction c as [| x c IH]; simpl; [discriminate |].
  destruct (test x) eqn:E.
  - intros [= ->]. eauto.
  - exact IH.
Qed.

Lemma find_none_filter : forall {A} (test : A -> bool) c,
  find test c = None -> filter test c = [].
Proof.
  intros A test c. induction c as [| x c IH]; simpl; [reflexivity |].
  destruct (test x); [discriminate | exact IH].
Qed.

Lemma find_app_none : forall {A} (test : A -> bool) c x,
  find test c = None -> find test (c ++ [x]) = find test [x].
Proof.
  intros A test c x. induction c as [| y c IH]; simpl; [reflexivity |].
  destruct (test y); [discriminate | exact IH].
Qed.

Lemma find_none_existsb : forall {A} (test : A -> bool) c,
  find test c = None -> existsb test c = false.
Proof.
  intros A test c. induction c as [| y c IH]; simpl; [reflexivity |].
  destruct (test y); [discriminate | exact IH].
Qed.

Lemma find_some_test : forall {A} (test : A -> bool) c d,
  find test c = Some d -> test d = true.
Proof.
  intros A test c d H. now apply find_some in H.
Qed.

Lemma valid_ids_find : forall test c d,
  valid_ids c = true -> find test c = Some d -> valid_id d = true.
Proof.
  intros test c d Hv Hf. apply find_some in Hf as [Hin _].
  unfold valid_ids in Hv. rewrite forallb_forall in Hv. now apply Hv.
Qed.

(** A query on [_id] alone, for an integer or a string, finds exactly the
    documents with that primary key. *)
Lemma matches_int_id : forall n d,
  valid_id d = true ->
  matches_doc [("_id", CEq (VInt n))] d = has_id (VInt n) d.
Proof.
  intros n d Hv. unfold matches_doc, clause_holds, has_id, valid_id in *.
  simpl. destruct (dict_get "_id" d) as [x |]; simpl; [| reflexivity].
  unfold eq_holds. simpl.
  destruct x; simpl; try reflexivity; try discriminate.
  rewrite Z.eqb_sym. now destruct (n0 =? n).
Qed.

Lemma matches_str_id : forall s d,
  valid_id d = true ->
  matches_doc [("_id", CEq (VStr s))] d = has_id (VStr s) d.
Proof.
  intros s d Hv. unfold matches_doc, clause_holds, has_id, valid_id in *.
  simpl. destruct (dict_get "_id" d) as [x |]; simpl; [| reflexivity].
  unfold eq_holds. simpl.
  destruct x; simpl; try reflexivity; try discriminate.
  rewrite String.eqb_sym. now destruct (String.eqb s0 s).
Qed.

Lemma has_id_int : forall n d,
  has_id (VInt n) d = true -> dict_get "_id" d = Some (VInt n).
Proof.
  unfold has_id. intros n d H.
  destruct (dict_get "_id" d) as [x |]; simpl in H; [| discriminate].
  now rewrite (value_eqb_int_r _ _ H).
Qed.

Lemma has_id_str : forall s d,
  has_id (VStr s) d = true -> dict_get "_id" d = Some (VStr s).
Proof.
  unfold has_id. intros s d H.
  destruct (dict_get "_id" d) as [x |]; simpl in H; [| discriminate].
  now rewrite (value_eqb_str_r _ _ H).
Qed.

Lemma existsb_has_id_matches : forall q i c,
  valid_ids c = true ->
  (forall d, valid_id d = true -> matches_doc q d = has_id i d) ->
  find (matches_doc q) c = None -> existsb (has_id i) c = false.
Proof.
  intros q i c Hv Hq. induction c as [| d c IH]; simpl; [reflexivity |].
  simpl in Hv. apply andb_true_iff in Hv as [Hd Hc].
  rewrite (Hq d Hd). destruct (has_id i d); [discriminate |].
  simpl. now apply IH.
Qed.

End StoreFacts.
Import StoreFacts.

(* ================================================================== *)
(** * Facts about CardController *)
(* ================================================================== *)

Module CardFacts.

Lemma find_one_all : forall q c, find_one q PAll c = find (matches_doc q) c.
Proof.
  intros q c. unfold find_one. now destruct (find (matches_doc q) c).
Qed.

Lemma set_plain_field : forall pos k v d,
  plain_key k = true ->
  modify_field pos (set_to v) k d = Ok (dict_set k v d).
Proof.
  intros pos k v d Hk. unfold plain_key in Hk.
  apply andb_true_iff in Hk as [Hk Hdot].
  apply andb_true_iff in Hk as [Hne Hdol].
  apply negb_true_iff in Hne, Hdol, Hdot.
  unfold modify_field. rewrite (split_path_plain _ Hdot). simpl.
  rewrite Hne, (plain_key_dollar _ Hdol), Hdol. reflexivity.
Qed.

(** [$set] with plain field names writes the fields one after the other. *)
Lemma set_plain_fields : forall pos fs d,
  forallb plain_key (keys fs) = true ->
  fold_fields (fun p v => modify_field pos (set_to v) p) fs d =
  Ok (fold_left (fun acc kv => dict_set (fst kv) (snd kv) acc) fs d).
Proof.
  intros pos fs. induction fs as [| [k v] fs IH]; simpl; intros d H.
  - reflexivity.
  - apply andb_true_iff in H as [Hk Hfs].
    rewrite (set_plain_field _ _ _ _ Hk). simpl. now apply IH.
Qed.

Lemma get_after_sets : forall k fs d,
  NoDup (keys fs) ->
  dict_get k (fold_left (fun acc kv => dict_set (fst kv) (snd kv) acc) fs d) =
  merged (dict_get k fs) (dict_get k d).
Proof.
  intros k fs. induction fs as [| [k0 v0] fs IH]; simpl; intros d Hnd.
  - reflexivity.
  - inversion Hnd as [| ? ? Hnotin Hnd']; subst.
    rewrite (IH _ Hnd'), dict_get_set.
    destruct (String.eqb k k0) eqn:E.
    + apply String.eqb_eq in E. subst k0.
      now rewrite (dict_get_not_in_keys _ _ Hnotin).
    + reflexivity.
Qed.

Lemma rekeyed_id : forall v c, dict_get "_id" (rekeyed v c) = Some v.
Proof.
  intros v c. unfold rekeyed.
  rewrite dict_get_del_other by reflexivity. now rewrite dict_get_set.
Qed.

Lemma rekeyed_other : forall k v c,
  k <> "_id" -> k <> "id" -> dict_get k (rekeyed v c) = dict_get k c.
Proof.
  intros k v c H1 H2. unfold rekeyed.
  apply String.eqb_neq in H1, H2.
  rewrite dict_get_del_other by assumption.
  now rewrite dict_get_set, H1.
Qed.

Lemma rekeyed_no_id : forall v c,
  NoDup (keys c) -> dict_get "id" (rekeyed v c) = None.
Proof.
  intros v c H. unfold rekeyed. apply dict_get_del_same.
  now apply nodup_dict_set.
Qed.

Lemma rekeyed_nodup : forall v c, NoDup (keys c) -> NoDup (keys (rekeyed v c)).
Proof.
  intros v c H. unfold rekeyed. now apply nodup_dict_del, nodup_dict_set.
Qed.

Lemma rekeyed_plain : forall v c,
  forallb plain_key (keys c) = true ->
  forallb plain_key (keys (rekeyed v c)) = true.
Proof.
  intros v c H. rewrite forallb_forall in *. intros k Hin.
  unfold rekeyed in Hin. apply keys_dict_del in Hin.
  apply keys_dict_set in Hin as [-> | Hin]; [reflexivity | now apply H].
Qed.

Lemma encodable_set : forall k v d,
  encodable v = true -> encodable_fields d = true ->
  encodable_fields (dict_set k v d) = true.
Proof.
  intros k v d Hv. unfold encodable_fields.
  induction d as [| [k' v'] d IH]; simpl; intro H.
  - now rewrite Hv.
  - apply andb_true_iff in H as [H1 H2].
    destruct (String.eqb k k'); simpl.
    + now rewrite Hv, H2.
    + now rewrite H1, IH.
Qed.

Lemma encodable_del : forall k d,
  encodable_fields d = true -> encodable_fields (dict_del k d) = true.
Proof.
  intros k d. unfold encodable_fields.
  induction d as [| [k' v'] d IH]; simpl; intro H; [reflexivity |].
  apply andb_true_iff in H as [H1 H2].
  destruct (String.eqb k k'); simpl; [assumption | now rewrite H1, IH].
Qed.

Lemma encodable_get : forall k d v,
  dict_get k d = Some v -> encodable_fields d = true -> encodable v = true.
Proof.
  intros k d v. unfold encodable_fields.
  induction d as [| [k' v'] d IH]; simpl; [discriminate |].
  intros Hg H. apply andb_true_iff in H as [H1 H2].
  destruct (String.eqb k k'); [now injection Hg as <- | now apply IH].
Qed.

Lemma rekeyed_encodable : forall v c,
  encodable_fields c = true -> dict_get "id" c = Some v ->
  encodable_fields (rekeyed v c) = true.
Proof.
  intros v c H Hid. unfold rekeyed.
  apply encodable_del, encodable_set; [| assumption].
  eapply encodable_get; eauto.
Qed.

(** The command of [upsert_card] can be encoded when the card can. *)
Lemma upsert_sendable : forall v c,
  encodable_fields c = true -> dict_get "id" c = Some v ->
  sendable (USet (rekeyed v c))
  && (negb true || base_encodable [("_id", CEq v)]) = true.
Proof.
  intros v c H Hid. cbn [sendable negb orb base_encodable forallb snd].
  rewrite (rekeyed_encodable _ _ H Hid), (encodable_get _ _ _ Hid H).
  reflexivity.
Qed.

(** It cannot when the [id] cannot. *)
Lemma upsert_not_sendable : forall v c,
  encodable v = false ->
  sendable (USet (rekeyed v c))
  && (negb true || base_encodable [("_id", CEq v)]) = false.
Proof.
  intros v c H. cbn [sendable negb orb base_encodable forallb snd].
  rewrite H. now rewrite andb_false_r.
Qed.

(** [upsert_card] step by step: one fresh heap cell for the copy, then one
    store round trip. *)
Lemma upsert_card_run : forall w card c v,
  nth_error (heap w) card = Some c ->
  dict_get "id" c = Some v ->
  Cards.upsert_card card w =
  let w1 := with_heap (heap w ++ [rekeyed v c]) w in
  match coll_update [("_id", CEq v)] (USet (rekeyed v c)) true (cards w) with
  | Ok cs => (Ok tt, with_cards cs w1)
  | Raise e => (Raise e, w1)
  end.
Proof.
  intros w card c v Hc Hid.
  unfold Cards.upsert_card, bind, deepcopy, getitem, setitem, delitem,
    deref, assign, lift, bind, cards_update, subscript. simpl.
  rewrite Hc. simpl. rewrite nth_error_app_last. rewrite Hid. simpl.
  rewrite nth_error_app_last. simpl. rewrite list_set_app_last.
  rewrite nth_error_app_last. rewrite dict_get_set. simpl.
  rewrite Hid. simpl.
  rewrite list_set_app_last, nth_error_app_last.
  fold (rekeyed v c). rewrite rekeyed_id. simpl.
  rewrite nth_error_app_last. unfold with_heap, with_cards; simpl.
  destruct (coll_update _ _ _ _); reflexivity.
Qed.

(** Whatever [upsert_card] does, it only adds cells to the heap. *)
Lemma upsert_card_heap : forall w card,
  exists extra, heap (snd (Cards.upsert_card card w)) = heap w ++ extra.
Proof.
  intros w card.
  destruct (nth_error (heap w) card) as [c |] eqn:Hc.
  - destruct (dict_get "id" c) as [v |] eqn:Hid.
    + rewrite (upsert_card_run _ _ _ _ Hc Hid). simpl.
      destruct (coll_update _ _ _ _); simpl; eauto.
    + unfold Cards.upsert_card, bind, deepcopy, getitem, deref, lift, bind,
        subscript. simpl.
      rewrite Hc. simpl. rewrite nth_error_app_last. rewrite Hid. simpl. eauto.
  - exists []. rewrite app_nil_r.
    unfold Cards.upsert_card, bind, deepcopy, deref, bind. simpl.
    now rewrite Hc.
Qed.

End CardFacts.
Import CardFacts.

(* ================================================================== *)
(** * Facts about UserController *)
(* ================================================================== *)

Module UserFacts.

(** ** Lists *)

Lemma find_ext_in : forall {A} (f g : A -> bool) l,
  (forall x, In x l -> f x = g x) -> find f l = find g l.
Proof.
  intros A f g l. induction l as [| x l IH]; simpl; intro H; [reflexivity |].
  rewrite (H x (or_introl eq_refl)). destruct (g x); [reflexivity |].
  apply IH. intros y Hy. apply H. now right.
Qed.

Lemma existsb_same : forall {A} (f g : A -> bool) l,
  (forall x, f x = g x) -> existsb f l = existsb g l.
Proof.
  intros A f g l H. induction l as [| x l IH]; simpl; [reflexivity |].
  now rewrite H, IH.
Qed.

Lemma find_index_ext : forall {A} (f g : A -> bool) l,
  (forall x, f x = g x) -> find_index f l = find_index g l.
Proof.
  intros A f g l H. induction l as [| x l IH]; simpl; [reflexivity |].
  now rewrite H, IH.
Qed.

Lemma find_index_find : forall {A} (t : A -> bool) l i,
  find_index t l = Some i ->
  exists e, nth_error l i = Some e /\ find t l = Some e /\ t e = true.
Proof.
  intros A t l. induction l as [| x l IH]; simpl; intros i; [discriminate |].
  destruct (t x) eqn:E.
  - intros [= <-]. exists x. auto.
  - destruct (find_index t l) as [j |]; simpl; [| discriminate].
    intros [= <-]. destruct (IH j eq_refl) as (e & H1 & H2 & H3).
    exists e. auto.
Qed.


Lemma find_index_none : forall {A} (t : A -> bool) l,
  find t l = None -> find_index t l = None.
Proof.
  intros A t l. induction l as [| x l IH]; simpl; [reflexivity |].
  destruct (t x); [discriminate |].
  intro H. now rewrite (IH H).
Qed.

Lemma find_list_set : forall {A} (t : A -> bool) l i x,
  find_index t l = Some i -> t x = true -> find t (list_set i x l) = Some x.
Proof.
  intros A t l. induction l as [| y l IH]; simpl; intros i x; [discriminate |].
  destruct (t y) eqn:E.
  - intros [= <-] Hx. simpl. now rewrite Hx.
  - destruct (find_index t l) as [j |] eqn:Hj; simpl; [| discriminate].
    intros [= <-] Hx. simpl. rewrite E. now apply IH.
Qed.

Lemma find_index_list_set : forall {A} (t : A -> bool) l i x,
  find_index t l = Some i -> t x = true ->
  find_index t (list_set i x l) = Some i.
Proof.
  intros A t l. induction l as [| y l IH]; simpl; intros i x; [discriminate |].
  destruct (t y) eqn:E.
  - intros [= <-] Hx. simpl. now rewrite Hx.
  - destruct (find_index t l) as [j |] eqn:Hj; simpl; [| discriminate].
    intros [= <-] Hx. simpl. rewrite E. now rewrite (IH j x eq_refl Hx).
Qed.

Lemma list_set_twice : forall {A} i (x y : A) l,
  list_set i x (list_set i y l) = list_set i x l.
Proof.
  intros A i x y l. revert i.
  induction l; intros [| i]; simpl; try reflexivity. now rewrite IHl.
Qed.



Lemma dict_set_twice : forall k v v' d,
  dict_set k v (dict_set k v' d) = dict_set k v d.
Proof.
  intros k v v' d. induction d as [| [k0 v0] d IH]; simpl.
  - now rewrite String.eqb_refl.
  - destruct (String.eqb k k0) eqn:E; simpl.
    + now rewrite String.eqb_refl.
    + now rewrite E, IH.
Qed.

Lemma hd_to_list : forall {A} n (l : list A),
  (0 < n)%nat -> hd_error (to_list n l) = hd_error l.
Proof.
  intros A [| n] l H; [lia |]. now destruct l.
Qed.

(** ** Queries on users *)

Lemma stored_user_find : forall uid w,
  stored_user uid w = find (matches_doc (Users.by_id uid)) (users w).
Proof.
  intros. unfold stored_user. apply CardFacts.find_one_all.
Qed.

Lemma stored_user_id : forall uid w d,
  valid_ids (users w) = true -> stored_user uid w = Some d ->
  dict_get "_id" d = Some (VStr uid).
Proof.
  intros uid w d Hv Hd. rewrite stored_user_find in Hd.
  apply has_id_str. rewrite <- matches_str_id.
  - eapply find_some_test; eauto.
  - eapply valid_ids_find; eauto.
Qed.

Lemma elem_matches_id : forall c e,
  elem_matches (entry_query c) e = eq_holds (id_values e) (VInt c).
Proof.
  intros c e. unfold elem_matches, entry_query, matches_doc, clause_holds.
  destruct e; try reflexivity.
  simpl. rewrite andb_true_r. unfold id_values.
  destruct (dict_get "id" d); reflexivity.
Qed.

Lemma elem_matches_doc : forall c e,
  elem_matches (entry_query c) e = true -> exists ed, e = VDoc ed.
Proof.
  intros c [| | | ed |] H; try discriminate. eauto.
Qed.

Lemma existsb_candidates : forall (t : value -> bool) (g : value -> list value) al,
  existsb t (flat_map g al ++ flat_map array_elems (flat_map g al)) =
  existsb (fun e => existsb t (g e ++ flat_map array_elems (g e))) al.
Proof.
  intros t g al. induction al as [| e al IH]; [reflexivity |].
  cbn [flat_map existsb]. rewrite <- IH.
  rewrite flat_map_app, !existsb_app.
  destruct (existsb t (g e)); destruct (existsb t (flat_map g al));
  destruct (existsb t (flat_map array_elems (g e))); reflexivity.
Qed.

Lemma eq_holds_flat_map : forall c (al : list value),
  eq_holds (flat_map id_values al) (VInt c) =
  existsb (fun e => eq_holds (id_values e) (VInt c)) al.
Proof.
  intros c al. unfold eq_holds. cbn [is_null andb]. rewrite orb_false_r.
  rewrite existsb_candidates. apply existsb_same.
  intro e. now rewrite orb_false_r.
Qed.

Lemma existsb_find : forall {A} (t : A -> bool) l,
  existsb t l = match find t l with Some _ => true | None => false end.
Proof.
  intros A t l. induction l as [| x l IH]; simpl; [reflexivity |].
  destruct (t x); [reflexivity | exact IH].
Qed.

(** The clause [{'album.id': card_id}] holds when some entry matches. *)
Lemma album_clause : forall c d al,
  dict_get "album" d = Some (VArr al) ->
  clause_holds (VDoc d) ("album.id", CEq (VInt c)) =
  match entry_for c al with Some _ => true | None => false end.
Proof.
  intros c d al Hal. unfold clause_holds, entry_for.
  change (split_path (fst ("album.id", CEq (VInt c)))) with ["album"; "id"].
  cbn [path_values snd cond_holds]. rewrite Hal.
  rewrite <- existsb_find.
  rewrite (existsb_same _ (fun e => eq_holds (id_values e) (VInt c))).
  - rewrite <- eq_holds_flat_map. reflexivity.
  - intro e. apply elem_matches_id.
Qed.

(** ** Round trips of the controller *)

Lemma to_list_cons : forall {A} (x : A) l,
  to_list 10000 (x :: l) = x :: to_list 9999 l.
Proof.
  intros. reflexivity.
Qed.

Lemma project_entry : forall c d,
  dict_get "album" (project (PElemMatch "album" (entry_query c)) d) =
  match dict_get "album" d with
  | Some (VArr al) => option_map (fun e => VArr [e]) (entry_for c al)
  | _ => None
  end.
Proof.
  intros c d. unfold project, entry_for.
  assert (Hbase : dict_get "album"
                    match dict_get "_id" d with
                    | Some i => [("_id", i)]
                    | None => []
                    end = None).
  { destruct (dict_get "_id" d); reflexivity. }
  destruct (dict_get "album" d) as [[| | | |al] |]; try exact Hbase.
  destruct (find (elem_matches (entry_query c)) al); [| exact Hbase].
  destruct (dict_get "_id" d); reflexivity.
Qed.

Lemma project_keys : forall uid c d al,
  dict_get "_id" d = Some (VStr uid) ->
  dict_get "album" d = Some (VArr al) ->
  Nat.ltb 1 (List.length (keys (project (PElemMatch "album" (entry_query c)) d))) =
  match entry_for c al with Some _ => true | None => false end.
Proof.
  intros uid c d al Hid Hal. unfold project, entry_for. rewrite Hid, Hal.
  destruct (find (elem_matches (entry_query c)) al); reflexivity.
Qed.

(** [get_card_from_album] returns the album entry and writes nothing. *)
Lemma get_card_from_album_run : forall uid c w,
  Users.get_card_from_album uid c w = (Ok (album_entry uid c w), w).
Proof.
  intros uid c w.
  unfold Users.get_card_from_album, bind, users_find, find_all, album_entry.
  rewrite stored_user_find.
  fold (entry_query c).
  destruct (find (matches_doc (Users.by_id uid)) (users w)) as [d |] eqn:Hf.
  - destruct (find_some_filter _ _ _ Hf) as [rest ->].
    cbn [map]. rewrite to_list_cons. rewrite project_entry.
    destruct (dict_get "album" d) as [[| | | |al] |]; try reflexivity.
    destruct (entry_for c al); reflexivity.
  - rewrite (find_none_filter _ _ Hf). reflexivity.
Qed.

(** [_user_has_card] on a user that exists. *)
Lemma user_has_card_run : forall uid c w d al,
  valid_ids (users w) = true ->
  stored_user uid w = Some d ->
  dict_get "album" d = Some (VArr al) ->
  Users._user_has_card uid (VInt c) w =
  (Ok (match entry_for c al with Some _ => true | None => false end), w).
Proof.
  intros uid c w d al Hv Hd Hal.
  pose proof (stored_user_id _ _ _ Hv Hd) as Hid.
  rewrite stored_user_find in Hd.
  unfold Users._user_has_card, bind, users_find_one, find_one.
  rewrite Hd. cbn [option_map]. unfold ret. fold (entry_query c).
  now rewrite (project_keys uid c d al Hid Hal).
Qed.


(** Any update that only rewrites the album of the stored user. *)
Lemma id_kept : forall d r,
  opt_value_eqb (dict_get "_id" (dict_set "album" r d)) (dict_get "_id" d)
  = true.
Proof.
  intros d r. rewrite dict_get_set. simpl.
  destruct (dict_get "_id" d); simpl; [apply value_eqb_refl | reflexivity].
Qed.


Lemma matches_two_clauses : forall uid c x,
  matches_doc [("_id", CEq (VStr uid)); ("album.id", CEq (VInt c))] x =
  matches_doc (Users.by_id uid) x
  && clause_holds (VDoc x) ("album.id", CEq (VInt c)).
Proof.
  intros. unfold matches_doc, Users.by_id. cbn [forallb].
  now rewrite !andb_true_r.
Qed.

Lemma find_stronger : forall {A} (t1 t2 : A -> bool) c d,
  find t1 c = Some d -> (forall x, t2 x = t1 x && t2 x) -> t2 d = true ->
  find t2 c = Some d /\
  forall d', replace_first t2 d' c = replace_first t1 d' c.
Proof.
  intros A t1 t2 c d. induction c as [| x c IH]; simpl; [discriminate |].
  intros Hf H12 Hd. destruct (t1 x) eqn:E.
  - injection Hf as ->. rewrite Hd. auto.
  - rewrite (H12 x), E. simpl. destruct (IH Hf H12 Hd) as [H1 H2].
    split; [assumption |]. intro d'. now rewrite H2.
Qed.

Lemma positional_entry : forall uid c d al,
  dict_get "_id" d = Some (VStr uid) ->
  dict_get "album" d = Some (VArr al) ->
  positional [("_id", CEq (VStr uid)); ("album.id", CEq (VInt c))] d =
  entry_index c al.
Proof.
  intros uid c d al Hid Hal. unfold positional, clause_position.
  change (split_path (fst ("_id", CEq (VStr uid)))) with ["_id"].
  change (split_path (fst ("album.id", CEq (VInt c)))) with ["album"; "id"].
  cbv beta iota. rewrite Hid, Hal. unfold entry_index.
  rewrite (find_index_ext _ (elem_matches (entry_query c))).
  - now destruct (find_index (elem_matches (entry_query c)) al).
  - intro e. rewrite elem_matches_id. cbn [snd cond_holds].
    destruct e; reflexivity.
Qed.

(** An update addressed to [{'_id': user_id, 'album.id': card_id}] that
    turns the stored document [d] into [d'] without touching [_id]. *)
Lemma entry_update_run : forall uid c u w d al k d',
  valid_ids (users w) = true ->
  stored_user uid w = Some d ->
  dict_get "album" d = Some (VArr al) ->
  entry_index c al = Some k ->
  apply_op (Some k) u d = Ok d' ->
  opt_value_eqb (dict_get "_id" d') (dict_get "_id" d) = true ->
  sendable u = true ->
  users_update [("_id", CEq (VStr uid)); ("album.id", CEq (VInt c))] u false w =
  (Ok tt, with_users (replace_first (matches_doc (Users.by_id uid)) d' (users w)) w).
Proof.
  intros uid c u w d al k d' Hv Hd Hal Hk Hop Hid' Hsend.
  pose proof (stored_user_id _ _ _ Hv Hd) as Hid.
  rewrite stored_user_find in Hd.
  destruct (find_index_find _ _ _ Hk) as (e & Hnth & Hfind & He).
  destruct (find_stronger (matches_doc (Users.by_id uid))
              (matches_doc [("_id", CEq (VStr uid)); ("album.id", CEq (VInt c))])
              (users w) d Hd) as [Hf2 Hrepl].
  - intro x. rewrite matches_two_clauses.
    now destruct (matches_doc (Users.by_id uid) x).
  - rewrite matches_two_clauses, (find_some_test _ _ _ Hd).
    rewrite (album_clause _ _ _ Hal). unfold entry_for. now rewrite Hfind.
  - unfold users_update, coll_update. rewrite Hsend. cbn [negb orb andb].
    rewrite (update_first_found _ _ _ _ Hf2).
    rewrite (positional_entry _ _ _ _ Hid Hal), Hk.
    unfold apply_update. rewrite Hop. cbn [obind]. rewrite Hid'.
    cbn [obind]. now rewrite Hrepl.
Qed.


(** An update the driver cannot encode raises before the store is
    reached. *)
Lemma users_update_unsendable : forall q u w,
  sendable u = false ->
  users_update q u false w = (Raise OverflowError, w).
Proof.
  intros q u w H. unfold users_update, coll_update. now rewrite H.
Qed.

(** Rewriting one field of the entry at position [k]. *)
Lemma modify_entry_field : forall k f fld d al ed r,
  dict_get "album" d = Some (VArr al) ->
  nth_error al k = Some (VDoc ed) ->
  plain_key fld = true ->
  f (dict_get fld ed) = Ok r ->
  modify_path (Some k) f ["album"; "$"; fld] (Some (VDoc d)) =
  Ok (VDoc (dict_set "album"
              (VArr (list_set k (VDoc (dict_set fld r ed)) al)) d)).
Proof.
  intros k f fld d al ed r Hal Hnth Hfld Hf.
  unfold plain_key in Hfld.
  apply andb_true_iff in Hfld as [Hfld _].
  apply andb_true_iff in Hfld as [Hne Hdol].
  apply negb_true_iff in Hne, Hdol.
  cbn [modify_path String.eqb Ascii.eqb Bool.eqb dollar_prefixed].
  rewrite Hal, Hnth, Hne, (plain_key_dollar _ Hdol), Hdol, Hf.
  reflexivity.
Qed.


End UserFacts.

Import UserFacts.

Module CardProps.

Lemma find_other_replace_first : forall {A} (t1 t2 : A -> bool) c d d',
  find t1 c = Some d -> t2 d = false -> t2 d' = false ->
  find t2 (replace_first t1 d' c) = find t2 c.
Proof.
  intros A t1 t2 c d d'. induction c as [| x c IH]; simpl; [discriminate |].
  destruct (t1 x) eqn:E.
  - intros [= ->] Hd Hd'. simpl. now rewrite Hd, Hd'.
  - intros Hf Hd Hd'. simpl. destruct (t2 x); [reflexivity | now apply IH].
Qed.

Lemma find_other_app : forall {A} (t : A -> bool) c x,
  t x = false -> find t (c ++ [x]) = find t c.
Proof.
  intros A t c x Hx. induction c as [| y c IH]; simpl.
  - now rewrite Hx.
  - destruct (t y); [reflexivity | exact IH].
Qed.

Lemma filter_other_replace_first : forall {A} (t g : A -> bool) c d',
  t d' = true -> g d' = true ->
  (forall x, In x c -> t x = true -> g x = true) ->
  List.length (filter g (replace_first t d' c)) = List.length (filter g c).
Proof.
  intros A t g c d' Ht Hg. induction c as [| x c IH]; simpl; intro H.
  - reflexivity.
  - destruct (t x) eqn:E; simpl.
    + rewrite Hg, (H x (or_introl eq_refl) E). reflexivity.
    + destruct (g x); simpl; rewrite IH; auto.
Qed.

Lemma has_int_id_other : forall n m d,
  dict_get "_id" d = Some (VInt n) -> m <> n ->
  matches_doc [("_id", CEq (VInt m))] d = false.
Proof.
  intros n m d Hd Hm. rewrite matches_int_id.
  - unfold has_id. rewrite Hd. simpl. now apply Z.eqb_neq.
  - unfold valid_id. now rewrite Hd.
Qed.

(** C1, as the code has it: [upsert_card] writes the card under its [id],
    for a card whose integers (the [id] among them) fit the signed 64-bit
    range. An absent entry is created from the card's fields. For an entry
    that exists, every field the card names is overwritten and every stored
    field the card does not name is kept; one entry per id remains and the
    other entries are untouched. *)
Theorem upsert_card_merges_fields : forall w card c n,
  valid_ids (cards w) = true ->
  nth_error (heap w) card = Some c ->
  NoDup (keys c) ->
  forallb plain_key (keys c) = true ->
  dict_get "id" c = Some (VInt n) ->
  encodable_fields c = true ->
  exists w' stored,
    Cards.upsert_card card w = (Ok tt, w') /\
    users w' = users w /\
    card_by_id n (cards w') = Some stored /\
    dict_get "_id" stored = Some (VInt n) /\
    (forall k, k <> "_id" ->
       dict_get k stored =
       merged (dict_get k (rekeyed (VInt n) c))
              (match card_by_id n (cards w) with
               | Some old => dict_get k old
               | None => None
               end)) /\
    (forall k, k <> "_id" -> k <> "id" ->
       dict_get k (rekeyed (VInt n) c) = dict_get k c) /\
    dict_get "id" (rekeyed (VInt n) c) = None /\
    List.length (filter (has_id (VInt n)) (cards w')) =
      Nat.max 1 (List.length (filter (has_id (VInt n)) (cards w))) /\
    (forall m, m <> n -> card_by_id m (cards w') = card_by_id m (cards w)).
Proof.
  intros w card c n Hv Hc Hnd Hplain Hid Henc.
  rewrite (upsert_card_run _ _ _ _ Hc Hid). cbv zeta.
  unfold card_by_id. setoid_rewrite find_one_all.
  set (q := [("_id", CEq (VInt n))]).
  set (c' := rekeyed (VInt n) c).
  set (sets := fold_left (fun acc kv => dict_set (fst kv) (snd kv) acc) c').
  assert (Hsets_id : forall d, dict_get "_id" (sets d) = Some (VInt n)).
  { intro d. unfold sets. rewrite get_after_sets by now apply rekeyed_nodup.
    unfold c'. now rewrite rekeyed_id. }
  assert (Hsets : forall d k, dict_get k (sets d) =
                              merged (dict_get k c') (dict_get k d)).
  { intros d k. unfold sets. now rewrite get_after_sets by now apply rekeyed_nodup. }
  assert (Hmatch : forall d, matches_doc q (sets d) = true).
  { intro d. unfold q. rewrite matches_int_id.
    - unfold has_id. rewrite Hsets_id. simpl. apply Z.eqb_refl.
    - unfold valid_id. now rewrite Hsets_id. }
  assert (Hother : forall d m, m <> n ->
            matches_doc [("_id", CEq (VInt m))] (sets d) = false).
  { intros d m Hm. eapply has_int_id_other; eauto. }
  pose proof (upsert_sendable _ _ Henc Hid) as Hsend.
  unfold coll_update. fold q. fold q c' in Hsend. rewrite Hsend.
  destruct (find (matches_doc q) (cards w)) as [old |] eqn:Hf.
  - assert (Hold : dict_get "_id" old = Some (VInt n)).
    { apply has_id_int. rewrite <- matches_int_id.
      - eapply find_some_test; eauto.
      - eapply valid_ids_find; eauto. }
    rewrite (update_first_found _ _ _ _ Hf).
    unfold apply_update, apply_op.
    rewrite set_plain_fields by now apply rekeyed_plain.
    fold c'. fold (sets old). simpl. rewrite Hsets_id, Hold. simpl.
    rewrite Z.eqb_refl. simpl.
    exists (with_cards (replace_first (matches_doc q) (sets old) (cards w))
              (with_heap (heap w ++ [c']) w)), (sets old).
    simpl. repeat split.
    + eapply find_replace_first; eauto.
    + apply Hsets_id.
    + intros k _. apply Hsets.
    + intros k H1 H2. now apply rekeyed_other.
    + now apply rekeyed_no_id.
    + rewrite filter_other_replace_first.
      * assert (Hin : In old (filter (has_id (VInt n)) (cards w))).
        { apply filter_In. split.
          - apply find_some in Hf. tauto.
          - unfold has_id. rewrite Hold. simpl. apply Z.eqb_refl. }
        destruct (filter (has_id (VInt n)) (cards w)); [destruct Hin |].
        simpl. lia.
      * apply Hmatch.
      * unfold has_id. rewrite Hsets_id. simpl. apply Z.eqb_refl.
      * intros x Hin Hx. unfold q in Hx. rewrite matches_int_id in Hx; auto.
        unfold valid_ids in Hv. rewrite forallb_forall in Hv. auto.
    + intros m Hm. eapply find_other_replace_first; eauto.
      eapply has_int_id_other; eauto.
  - rewrite (update_first_none _ _ _ Hf).
    change (upsert_base q []) with (@Ok document [("_id", VInt n)]).
    simpl. rewrite set_plain_fields by now apply rekeyed_plain.
    fold c'. fold (sets [("_id", VInt n)]). simpl. rewrite Hsets_id.
    assert (Hex : existsb (has_id (VInt n)) (cards w) = false).
    { eapply existsb_has_id_matches; eauto.
      intros d Hd. now apply matches_int_id. }
    rewrite Hex.
    exists (with_cards (cards w ++ [sets [("_id", VInt n)]])
              (with_heap (heap w ++ [c']) w)), (sets [("_id", VInt n)]).
    simpl. repeat split.
    + rewrite find_app_none by assumption. cbn [find]. now rewrite Hmatch.
    + apply Hsets_id.
    + intros k Hk. rewrite Hsets. simpl.
      apply String.eqb_neq in Hk. now rewrite Hk.
    + intros k H1 H2. now apply rekeyed_other.
    + now apply rekeyed_no_id.
    + rewrite filter_app, List.length_app. simpl.
      unfold has_id at 2. rewrite Hsets_id. simpl. rewrite Z.eqb_refl. simpl.
      assert (Hnil : filter (has_id (VInt n)) (cards w) = []).
      { clear - Hex. induction (cards w) as [| x l IH]; simpl in *; [reflexivity |].
        apply orb_false_iff in Hex as [Hx Hl]. rewrite Hx. now apply IH. }
      rewrite Hnil. reflexivity.
    + intros m Hm. apply find_other_app. now apply Hother.
Qed.

(** C10: every dictionary that was on the heap before [upsert_card(card)]
    is the same afterwards, the caller's [card] among them: the key rewrite
    happens on the copy. *)
Theorem upsert_card_keeps_argument : forall w card r d,
  nth_error (heap w) r = Some d ->
  nth_error (heap (snd (Cards.upsert_card card w))) r = Some d.
Proof.
  intros w card r d H.
  destruct (upsert_card_heap w card) as [extra ->].
  rewrite nth_error_app1; [assumption |].
  apply nth_error_Some. congruence.
Qed.

Ltac distinct_keys :=
  repeat constructor; simpl; intuition discriminate.

Lemma upsert_card_merges_fields_witness :
  exists w' stored,
    Cards.upsert_card 1 catalog_with_card_1 = (Ok tt, w') /\
    users w' = users catalog_with_card_1 /\
    card_by_id 1 (cards w') = Some stored /\
    dict_get "_id" stored = Some (VInt 1) /\
    (forall k, k <> "_id" ->
       dict_get k stored =
       merged (dict_get k (rekeyed (VInt 1) card_1_second))
              (match card_by_id 1 (cards catalog_with_card_1) with
               | Some old => dict_get k old
               | None => None
               end)) /\
    (forall k, k <> "_id" -> k <> "id" ->
       dict_get k (rekeyed (VInt 1) card_1_second) = dict_get k card_1_second) /\
    dict_get "id" (rekeyed (VInt 1) card_1_second) = None /\
    List.length (filter (has_id (VInt 1)) (cards w')) =
      Nat.max 1 (List.length (filter (has_id (VInt 1))
                                (cards catalog_with_card_1))) /\
    (forall m, m <> 1 ->
       card_by_id m (cards w') = card_by_id m (cards catalog_with_card_1)).
Proof.
  apply (upsert_card_merges_fields catalog_with_card_1 1%nat card_1_second 1).
  - reflexivity.
  - reflexivity.
  - distinct_keys.
  - reflexivity.
  - reflexivity.
  - reflexivity.
Defined.

(** C1 as stated fails: the second upsert of card 1 names no [attribute],
    and the stored entry still carries the [attribute] of the first. *)
Lemma upsert_card_keeps_unnamed_field :
  nth_error (heap two_versions) 1 =
    Some [("id", VInt 1); ("rarity", VStr "SR")] /\
  cards (snd (Cards.upsert_card 1 (snd (Cards.upsert_card 0 two_versions)))) =
    [[("_id", VInt 1); ("rarity", VStr "SR"); ("attribute", VStr "Smile")]].
Proof.
  split; reflexivity.
Qed.

Lemma upsert_card_keeps_argument_witness :
  nth_error (heap (snd (Cards.upsert_card 0 two_versions))) 0 =
  Some card_1_first.
Proof.
  apply (upsert_card_keeps_argument two_versions 0%nat 0%nat card_1_first).
  reflexivity.
Defined.

End CardProps.

(* ================================================================== *)
(** * Properties of UserController: lookups and removal *)
(* ================================================================== *)

Module UserProps.

Lemma matches_with_album : forall uid r d,
  matches_doc (Users.by_id uid) (dict_set "album" r d) =
  matches_doc (Users.by_id uid) d.
Proof.
  intros uid r d. unfold matches_doc, Users.by_id, clause_holds.
  cbn [forallb fst snd].
  change (split_path "_id") with ["_id"]. cbn [path_values].
  now rewrite dict_get_set.
Qed.

Lemma stored_user_with_album : forall uid w d al,
  stored_user uid w = Some d ->
  stored_user uid (with_album uid d al w) =
  Some (dict_set "album" (VArr al) d).
Proof.
  intros uid w d al Hd. rewrite stored_user_find in *. unfold with_album.
  cbn [users with_users].
  eapply find_replace_first; eauto.
  rewrite matches_with_album. eapply find_some_test; eauto.
Qed.

Lemma elem_matches_same_id : forall c ed ed',
  dict_get "id" ed' = dict_get "id" ed ->
  elem_matches (entry_query c) (VDoc ed') =
  elem_matches (entry_query c) (VDoc ed).
Proof.
  intros c ed ed' H. rewrite !elem_matches_id. unfold id_values. now rewrite H.
Qed.

Lemma set_counts_op : forall k d al ed nu ni,
  dict_get "album" d = Some (VArr al) ->
  nth_error al k = Some (VDoc ed) ->
  apply_op (Some k)
    (USet [("album.$.unidolized_count", nu); ("album.$.idolized_count", ni)]) d =
  Ok (dict_set "album"
        (VArr (list_set k
                 (VDoc (dict_set "idolized_count" ni
                          (dict_set "unidolized_count" nu ed))) al)) d).
Proof.
  intros k d al ed nu ni Hal Hnth.
  unfold apply_op, fold_fields, modify_field.
  change (split_path "album.$.unidolized_count")
    with ["album"; "$"; "unidolized_count"].
  change (split_path "album.$.idolized_count")
    with ["album"; "$"; "idolized_count"].
  rewrite (modify_entry_field k (set_to nu) "unidolized_count" d al ed nu
             Hal Hnth eq_refl eq_refl).
  cbn [obind].
  erewrite (modify_entry_field k (set_to ni) "idolized_count");
    [ | rewrite dict_get_set, String.eqb_refl; reflexivity
      | eapply nth_error_list_set_same; eassumption
      | reflexivity | reflexivity ].
  cbn [obind String.eqb Ascii.eqb Bool.eqb].
  now rewrite list_set_twice, dict_set_twice.
Qed.

(** [remove_from_user_album] on an entry with integer counters, step by
    step: the two counters are sent with one [$set], which the driver
    encodes first. *)
Lemma remove_run : forall uid c idolized count w d al k ed u i,
  valid_ids (users w) = true ->
  stored_user uid w = Some d ->
  dict_get "album" d = Some (VArr al) ->
  entry_index c al = Some k ->
  nth_error al k = Some (VDoc ed) ->
  dict_get "unidolized_count" ed = Some (VInt u) ->
  dict_get "idolized_count" ed = Some (VInt i) ->
  Users.remove_from_user_album uid c idolized count w =
  if int64 (if idolized then u else u - count)
     && int64 (if idolized then i - count else i)
  then
    (Ok true,
     with_album uid d
       (list_set k
          (VDoc (dict_set "idolized_count"
                   (VInt (if idolized then i - count else i))
                   (dict_set "unidolized_count"
                      (VInt (if idolized then u else u - count)) ed))) al) w)
  else (Raise OverflowError, w).
Proof.
  intros uid c idolized count w d al k ed u i Hv Hd Hal Hk Hnth Hu Hi.
  assert (Hentry : album_entry uid c w = Some (VDoc ed)).
  { unfold album_entry. rewrite Hd, Hal. unfold entry_for.
    destruct (find_index_find _ _ _ Hk) as (e & Hn & Hf & _). congruence. }
  unfold Users.remove_from_user_album, bind.
  rewrite get_card_from_album_run, Hentry.
  assert (Htruthy : truthy (VDoc ed) = true)
    by (destruct ed; [discriminate | reflexivity]).
  rewrite Htruthy. cbn [negb]. unfold lift, subscript. rewrite Hu, Hi.
  set (nu := if idolized then u else u - count).
  set (ni := if idolized then i - count else i).
  assert (Hcounts :
    (if idolized
     then obind (py_sub (VInt i) count) (fun n => Ok (VInt u, n))
     else obind (py_sub (VInt u) count) (fun n => Ok (n, VInt i))) =
    Ok (VInt nu, VInt ni)).
  { unfold nu, ni. destruct idolized; reflexivity. }
  rewrite Hcounts. cbn [fst snd].
  destruct (int64 nu && int64 ni) eqn:Hr.
  - rewrite (entry_update_run uid c _ w d al k _ Hv Hd Hal Hk
               (set_counts_op k d al ed (VInt nu) (VInt ni) Hal Hnth)
               (id_kept _ _)).
    + reflexivity.
    + cbn [sendable encodable_fields forallb snd encodable].
      now rewrite andb_true_r.
  - rewrite users_update_unsendable; [reflexivity |].
    cbn [sendable encodable_fields forallb snd encodable].
    now rewrite andb_true_r.
Qed.



(** C2, as the code has it: when the album holds an entry for the card, at
    position [k] with counters that are 64-bit integers,
    [remove_from_user_album] subtracts [count] from the counter chosen by
    [idolized]. When the difference fits the signed 64-bit range it writes
    both counters back whatever their sign, leaves the rest of the entry
    and of the album as they were, and returns [True]. When it does not,
    the driver raises [OverflowError] and nothing is written. *)
Theorem remove_decrements_counter :
  forall uid c (idolized : bool) count w d al k ed u i,
  valid_ids (users w) = true ->
  stored_user uid w = Some d ->
  dict_get "album" d = Some (VArr al) ->
  entry_index c al = Some k ->
  nth_error al k = Some (VDoc ed) ->
  dict_get "unidolized_count" ed = Some (VInt u) ->
  dict_get "idolized_count" ed = Some (VInt i) ->
  int64 u = true ->
  int64 i = true ->
  (int64 (if idolized then i - count else u - count) = true ->
   exists ed' al',
     Users.remove_from_user_album uid c idolized count w =
       (Ok true, with_album uid d al' w) /\
     al' = list_set k (VDoc ed') al /\
     List.length al' = List.length al /\
     album_entry uid c (with_album uid d al' w) = Some (VDoc ed') /\
     dict_get "idolized_count" ed' =
       Some (VInt (if idolized then i - count else i)) /\
     dict_get "unidolized_count" ed' =
       Some (VInt (if idolized then u else u - count)) /\
     (forall f, f <> "idolized_count" -> f <> "unidolized_count" ->
        dict_get f ed' = dict_get f ed) /\
     (forall j, j <> k -> nth_error al' j = nth_error al j)) /\
  (int64 (if idolized then i - count else u - count) = false ->
   Users.remove_from_user_album uid c idolized count w =
     (Raise OverflowError, w)).
Proof.
  intros uid c idolized count w d al k ed u i Hv Hd Hal Hk Hnth Hu Hi Hu64 Hi64.
  pose proof (remove_run uid c idolized count w d al k ed u i
                Hv Hd Hal Hk Hnth Hu Hi) as Hrun.
  split; intro Hnew.
  2: { rewrite Hrun. destruct idolized; rewrite Hnew;
         [now rewrite andb_false_r | reflexivity]. }
  assert (Hfit : int64 (if idolized then u else u - count)
                 && int64 (if idolized then i - count else i) = true).
  { destruct idolized; now rewrite ?Hnew, ?Hu64, ?Hi64. }
  rewrite Hfit in Hrun. clear Hfit.
  set (nu := if idolized then u else u - count) in *.
  set (ni := if idolized then i - count else i) in *.
  set (ed' := dict_set "idolized_count" (VInt ni)
                (dict_set "unidolized_count" (VInt nu) ed)) in *.
  exists ed', (list_set k (VDoc ed') al).
  assert (Hid : dict_get "id" ed' = dict_get "id" ed).
  { unfold ed'. now rewrite !dict_get_set. }
  repeat split.
  - exact Hrun.
  - apply list_set_length.
  - unfold album_entry.
    rewrite (stored_user_with_album _ _ _ _ Hd), dict_get_set.
    cbn [String.eqb Ascii.eqb Bool.eqb]. unfold entry_for.
    apply find_list_set; [exact Hk |].
    rewrite (elem_matches_same_id _ _ _ Hid).
    destruct (find_index_find _ _ _ Hk) as (e & Hn & _ & He). congruence.
  - unfold ed'. now rewrite dict_get_set.
  - unfold ed'. now rewrite !dict_get_set.
  - intros f H1 H2. unfold ed'. apply String.eqb_neq in H1, H2.
    now rewrite !dict_get_set, H1, H2.
  - intros j Hj. apply nth_error_list_set_other. congruence.
Qed.

Lemma remove_decrements_counter_witness :
  exists ed' al',
    Users.remove_from_user_album "u1" 5 false 7 user_with_card_5 =
      (Ok true, with_album "u1" u1_doc al' user_with_card_5) /\
    dict_get "unidolized_count" ed' = Some (VInt (1 - 7)).
Proof.
  destruct (proj1 (remove_decrements_counter "u1" 5 false 7 user_with_card_5
                     u1_doc [VDoc entry_5] 0%nat entry_5 1 0
                     eq_refl eq_refl eq_refl eq_refl eq_refl eq_refl eq_refl
                     eq_refl eq_refl) eq_refl)
    as (ed' & al' & H1 & _ & _ & _ & _ & H2 & _).
  exists ed', al'. split; [exact H1 | exact H2].
Defined.

(** C2 as stated fails for a count the store cannot hold: the album entry
    of card 5 has [unidolized_count] 1, and removing [2 ** 64] copies
    raises [OverflowError] and leaves the album as it was. *)
Lemma remove_beyond_range_raises :
  album_entry "u1" 5 user_with_card_5 = Some (VDoc entry_5) /\
  dict_get "unidolized_count" entry_5 = Some (VInt 1) /\
  Users.remove_from_user_album "u1" 5 false 18446744073709551616
    user_with_card_5 = (Raise OverflowError, user_with_card_5).
Proof.
  repeat split; vm_compute; reflexivity.
Qed.

Lemma has_id_matches : forall uid d,
  has_id (VStr uid) d = true -> matches_doc (Users.by_id uid) d = true.
Proof.
  intros uid d H. apply has_id_str in H.
  unfold matches_doc, Users.by_id, clause_holds. cbn [forallb fst snd].
  change (split_path "_id") with ["_id"]. cbn [path_values]. rewrite H.
  unfold cond_holds, eq_holds. cbn [app existsb value_eqb].
  now rewrite String.eqb_refl.
Qed.

Lemma insert_user_run : forall uid w,
  stored_user uid w = None ->
  Users.insert_user uid w =
  (Ok tt, with_users (users w ++ [[("_id", VStr uid); ("album", VArr [])]]) w).
Proof.
  intros uid w H. rewrite stored_user_find in H.
  unfold Users.insert_user, users_insert_one, coll_insert.
  cbn [dict_get String.eqb Ascii.eqb Bool.eqb].
  assert (Hex : existsb (has_id (VStr uid)) (users w) = false).
  { clear - H. induction (users w) as [| x l IH]; cbn [find existsb] in *;
      [reflexivity |].
    destruct (matches_doc (Users.by_id uid) x) eqn:E; [discriminate |].
    destruct (has_id (VStr uid) x) eqn:E'.
    - apply has_id_matches in E'. congruence.
    - now apply IH. }
  now rewrite Hex.
Qed.

(** C8: [get_user_album] returns the stored album of a user that exists and
    the empty list for a user that does not; a user created by
    [insert_user] gives that same empty list. *)
Theorem get_user_album_spec : forall uid w,
  (forall d a, stored_user uid w = Some d -> dict_get "album" d = Some a ->
     Users.get_user_album uid w = (Ok a, w)) /\
  (stored_user uid w = None ->
     Users.get_user_album uid w = (Ok (VArr []), w) /\
     exists w1,
       Users.insert_user uid w = (Ok tt, w1) /\
       stored_user uid w1 = Some [("_id", VStr uid); ("album", VArr [])] /\
       Users.get_user_album uid w1 = (Ok (VArr []), w1)).
Proof.
  intros uid w. split.
  - intros d a Hd Ha.
    unfold Users.get_user_album, bind, Users.find_user, users_find_one.
    fold (stored_user uid w). rewrite Hd.
    assert (Ht : truthy (VDoc d) = true) by (destruct d; [discriminate | reflexivity]).
    rewrite Ht. cbn [negb]. unfold lift, subscript. now rewrite Ha.
  - intro Hd. split.
    + unfold Users.get_user_album, bind, Users.find_user, users_find_one.
      fold (stored_user uid w). now rewrite Hd.
    + rewrite (insert_user_run _ _ Hd). eexists. split; [reflexivity |].
      assert (Hs : stored_user uid
                (with_users (users w ++ [[("_id", VStr uid); ("album", VArr [])]]) w)
              = Some [("_id", VStr uid); ("album", VArr [])]).
      { rewrite stored_user_find in *. cbn [users with_users].
        rewrite find_app_none by assumption. cbn [find].
        rewrite has_id_matches; [reflexivity |].
        unfold has_id. cbn. apply String.eqb_refl. }
      split; [exact Hs |].
      unfold Users.get_user_album, bind, Users.find_user, users_find_one.
      match goal with |- context [find_one ?q PAll (users ?w')] =>
        change (find_one q PAll (users w')) with (stored_user uid w') end.
      rewrite Hs. reflexivity.
Qed.

Lemma get_user_album_spec_witness :
  Users.get_user_album "u1" user_with_card_5 =
    (Ok (VArr [VDoc entry_5]), user_with_card_5) /\
  Users.get_user_album "u1" empty_world = (Ok (VArr []), empty_world).
Proof.
  split.
  - apply (proj1 (get_user_album_spec "u1" user_with_card_5) u1_doc);
      reflexivity.
  - apply (proj2 (get_user_album_spec "u1" empty_world)). reflexivity.
Defined.



End UserProps.

(* ================================================================== *)
(** * Facts about [$sort] *)
(* ================================================================== *)

Module SortFacts.

Section Insertion.
Context {A : Type} (leb : A -> A -> bool).



Context (key : A -> Z) (P : A -> bool).
Hypothesis leb_key :
  forall a b, P a = true -> P b = true -> leb a b = Z.leb (key a) (key b).




End Insertion.




End SortFacts.
Import SortFacts.

(* ================================================================== *)
(** * Facts about [add_to_user_album] *)
(* ================================================================== *)

Module AlbumFacts.

Lemma add_singleton : forall uid idolized card w,
  Users.add_to_user_album uid [card] idolized w =
  Users.add_card uid idolized card w.
Proof.
  intros. cbn [Users.add_to_user_album]. unfold bind, ret.
  destruct (Users.add_card uid idolized card w) as [[[] | e] w']; reflexivity.
Qed.

Lemma stored_user_ticks : forall uid t w,
  stored_user uid (with_ticks t w) = stored_user uid w.
Proof.
  reflexivity.
Qed.



Lemma valid_ids_with_album : forall uid w d al,
  valid_ids (users w) = true ->
  stored_user uid w = Some d ->
  valid_ids (users (with_album uid d al w)) = true.
Proof.
  intros uid w d al Hv Hd. rewrite stored_user_find in Hd.
  pose proof (valid_ids_find _ _ _ Hv Hd) as Hvd.
  unfold with_album. cbn [users with_users].
  assert (Hd' : valid_id (dict_set "album" (VArr al) d) = true).
  { unfold valid_id in *. now rewrite dict_get_set. }
  clear Hd. revert Hv. unfold valid_ids.
  induction (users w) as [| x l IH]; cbn [replace_first forallb];
    [reflexivity |].
  intro H. apply andb_true_iff in H as [Hx Hl].
  destruct (matches_doc (Users.by_id uid) x); cbn [forallb].
  - now rewrite Hd', Hl.
  - now rewrite Hx, IH.
Qed.

(** ** A card the album does not hold *)




(** ** A card the album holds *)

Lemma inc_split : forall fld,
  plain_key fld = true ->
  split_path ("album.$." ++ fld) = ["album"; "$"; fld].
Proof.
  intros fld Hfld. unfold plain_key in Hfld.
  apply andb_true_iff in Hfld as [_ Hdot].
  apply negb_true_iff in Hdot. cbn. now rewrite (split_path_plain _ Hdot).
Qed.

Lemma inc_op : forall k d al ed fld m,
  dict_get "album" d = Some (VArr al) ->
  nth_error al k = Some (VDoc ed) ->
  dict_get fld ed = Some (VInt m) ->
  plain_key fld = true ->
  int64 (m + 1) = true ->
  modify_field (Some k) (inc_by 1) ("album.$." ++ fld) d =
  Ok (dict_set "album"
        (VArr (list_set k (VDoc (dict_set fld (VInt (m + 1)) ed)) al)) d).
Proof.
  intros k d al ed fld m Hal Hnth Hm Hfld Hfit. unfold modify_field.
  rewrite (inc_split _ Hfld).
  rewrite (modify_entry_field k (inc_by 1) fld d al ed (VInt (m + 1))
             Hal Hnth Hfld).
  - reflexivity.
  - rewrite Hm. cbn [inc_by]. now rewrite Hfit.
Qed.


Lemma add_existing_run : forall uid idolized card c w d al k ed m,
  valid_ids (users w) = true ->
  stored_user uid w = Some d ->
  dict_get "album" d = Some (VArr al) ->
  subscript card "_id" = Ok (VInt c) ->
  entry_index c al = Some k ->
  nth_error al k = Some (VDoc ed) ->
  dict_get (counter idolized) ed = Some (VInt m) ->
  int64 (m + 1) = true ->
  Users.add_card uid idolized card w =
  (Ok tt,
   with_album uid d
     (list_set k (VDoc (dict_set (counter idolized) (VInt (m + 1)) ed)) al) w).
Proof.
  intros uid idolized card c w d al k ed m Hv Hd Hal Hc Hk Hnth Hm Hfit.
  unfold Users.add_card, bind, lift. rewrite Hc.
  rewrite (user_has_card_run _ _ _ _ _ Hv Hd Hal).
  destruct (find_index_find _ _ _ Hk) as (e & _ & Hfind & _).
  unfold entry_for. rewrite Hfind. cbn [negb].
  destruct idolized; cbn [counter] in *.
  - apply (entry_update_run uid c _ w d al k _ Hv Hd Hal Hk).
    + unfold apply_op, fold_fields.
      pose proof (inc_op k d al ed "idolized_count" m Hal Hnth Hm eq_refl Hfit)
        as H.
      cbn [String.append] in H. now rewrite H.
    + apply id_kept.
    + reflexivity.
  - apply (entry_update_run uid c _ w d al k _ Hv Hd Hal Hk).
    + unfold apply_op, fold_fields.
      pose proof (inc_op k d al ed "unidolized_count" m Hal Hnth Hm eq_refl Hfit)
        as H.
      cbn [String.append] in H. now rewrite H.
    + apply id_kept.
    + reflexivity.
Qed.



Lemma counter_not_id : forall idolized, String.eqb "id" (counter idolized) = false.
Proof.
  intros []; reflexivity.
Qed.

End AlbumFacts.
Import AlbumFacts.

(* ================================================================== *)
(** * Properties of [add_to_user_album] *)
(* ================================================================== *)

Module AlbumProps.




























End AlbumProps.

(* ================================================================== *)
(** * Properties of [get_random_cards] *)
(* ================================================================== *)

Module SampleProps.






(** C5 at the failing input: 101 cards match the empty filter, 102 are
    asked for, and [get_random_cards] returns 100 of them, the length of
    its [to_list(length=100)]. *)
Theorem get_random_cards_capped :
  List.length (filter (matches_doc []) (cards large_catalog)) = 101%nat /\
  exists result,
    fst (Cards.get_random_cards [] 102 large_catalog) = Ok result /\
    List.length result = 100%nat.
Proof.
  split; [reflexivity |].
  eexists. split; vm_compute; reflexivity.
Qed.

End SampleProps.

(* ================================================================== *)
(** * Further properties of UserController *)
(* ================================================================== *)

Module MoreUserProps.


(** [insert_user] on a user that is already stored raises the store's
    duplicate key error and leaves the world as it was. *)
Theorem insert_existing_user_raises : forall uid w d,
  valid_ids (users w) = true ->
  stored_user uid w = Some d ->
  Users.insert_user uid w = (Raise DuplicateKeyError, w).
Proof.
  intros uid w d Hv Hd. rewrite stored_user_find in Hd.
  unfold Users.insert_user, users_insert_one, coll_insert.
  cbn [dict_get String.eqb Ascii.eqb Bool.eqb].
  assert (Hex : existsb (has_id (VStr uid)) (users w) = true).
  { apply existsb_exists. exists d. split.
    - apply find_some in Hd. tauto.
    - rewrite <- matches_str_id.
      + eapply find_some_test; eauto.
      + eapply valid_ids_find; eauto. }
  now rewrite Hex.
Qed.

Lemma insert_existing_user_raises_witness :
  Users.insert_user "u1" fresh_user = (Raise DuplicateKeyError, fresh_user).
Proof.
  apply (insert_existing_user_raises "u1" fresh_user
           [("_id", VStr "u1"); ("album", VArr [])]); reflexivity.
Defined.

End MoreUserProps.

(* ================================================================== *)
(** * More facts about values and collections *)
(* ================================================================== *)

Module MoreFacts.

Lemma value_eqb_eq : forall a b, value_eqb a b = true -> a = b.
Proof.
  fix IH 1. intros [| n | s | d | l] [| m | t | e | k]; simpl;
    try discriminate; intro H.
  - reflexivity.
  - apply Z.eqb_eq in H. now subst.
  - apply String.eqb_eq in H. now subst.
  - f_equal. revert e H. induction d as [| [k v] d IHd]; intros [| [k' v'] e] H;
      try discriminate; [reflexivity |].
    apply andb_true_iff in H as [H He].
    apply andb_true_iff in H as [Hk Hv].
    apply String.eqb_eq in Hk. apply IH in Hv. subst.
    f_equal. now apply IHd.
  - f_equal. revert k H. induction l as [| x l IHl]; intros [| y k] H;
      try discriminate; [reflexivity |].
    apply andb_true_iff in H as [Hx Hl].
    apply IH in Hx. subst. f_equal. now apply IHl.
Qed.

Lemma opt_value_eqb_eq : forall a b, opt_value_eqb a b = true -> a = b.
Proof.
  intros [a |] [b |] H; simpl in H; try discriminate; [| reflexivity].
  now rewrite (value_eqb_eq _ _ H).
Qed.

Lemma world_eta : forall w,
  mkWorld (cards w) (users w) (heap w) (clock w) (ticks w) (rnd w) (draws w)
  = w.
Proof.
  now intros [].
Qed.

(** ** Distinct values *)

Lemma distinct_values_in : forall v l, In v (distinct_values l) <-> In v l.
Proof.
  intros v l. induction l as [| x l IH]; simpl; [tauto |].
  rewrite filter_In, IH. split.
  - intros [H | [H _]]; auto.
  - intros [H | H]; [now left |].
    destruct (value_eqb x v) eqn:E.
    + left. now apply value_eqb_eq.
    + right. split; [assumption | reflexivity].
Qed.

Lemma distinct_values_nodup : forall l, NoDup (distinct_values l).
Proof.
  induction l as [| x l IH]; simpl; constructor.
  - rewrite filter_In. intros [_ H]. now rewrite value_eqb_refl in H.
  - now apply NoDup_filter.
Qed.

(** With primary keys that are not arrays, [distinct('_id')] lists the
    [_id] of every document, once. *)
Lemma distinct_ids_in : forall v c,
  valid_ids c = true ->
  (In v (coll_distinct "_id" c) <->
   exists d, In d c /\ dict_get "_id" d = Some v).
Proof.
  intros v c Hv. unfold coll_distinct. rewrite distinct_values_in.
  change (split_path "_id") with ["_id"]. rewrite in_flat_map.
  unfold valid_ids in Hv. rewrite forallb_forall in Hv.
  split.
  - intros (d & Hd & Hin). exists d. split; [assumption |].
    specialize (Hv d Hd). unfold valid_id in Hv. cbn [path_values] in Hin.
    destruct (dict_get "_id" d) as [x |]; [| destruct Hin].
    cbn in Hin. rewrite app_nil_r in Hin.
    destruct x; try discriminate; destruct Hin as [<- | []]; reflexivity.
  - intros (d & Hd & Hid). exists d. split; [assumption |].
    specialize (Hv d Hd). unfold valid_id in Hv. cbn [path_values].
    rewrite Hid in *. cbn. rewrite app_nil_r.
    destruct v; try discriminate; now left.
Qed.

Lemma find_by_int_id : forall n c,
  valid_ids c = true ->
  (card_by_id n c <> None <->
   exists d, In d c /\ dict_get "_id" d = Some (VInt n)).
Proof.
  intros n c Hv. unfold card_by_id. rewrite find_one_all. split.
  - destruct (find _ c) as [d |] eqn:Hf; [intros _ | congruence].
    exists d. pose proof (valid_ids_find _ _ _ Hv Hf) as Hvd.
    apply find_some in Hf as [Hin Hm]. split; [assumption |].
    apply has_id_int. now rewrite <- matches_int_id.
  - intros (d & Hin & Hid) Hnone.
    apply (find_none _ _ Hnone) in Hin.
    rewrite matches_int_id in Hin.
    + unfold has_id in Hin. rewrite Hid in Hin. simpl in Hin.
      now rewrite Z.eqb_refl in Hin.
    + unfold valid_id. now rewrite Hid.
Qed.

Lemma find_by_str_id : forall uid w,
  valid_ids (users w) = true ->
  (stored_user uid w <> None <->
   exists d, In d (users w) /\ dict_get "_id" d = Some (VStr uid)).
Proof.
  intros uid w Hv. rewrite stored_user_find. unfold Users.by_id. split.
  - destruct (find _ (users w)) as [d |] eqn:Hf; [intros _ | congruence].
    exists d. pose proof (valid_ids_find _ _ _ Hv Hf) as Hvd.
    apply find_some in Hf as [Hin Hm]. split; [assumption |].
    apply has_id_str. now rewrite <- matches_str_id.
  - intros (d & Hin & Hid) Hnone.
    apply (find_none _ _ Hnone) in Hin.
    rewrite matches_str_id in Hin.
    + unfold has_id in Hin. rewrite Hid in Hin. simpl in Hin.
      now rewrite String.eqb_refl in Hin.
    + unfold valid_id. now rewrite Hid.
Qed.

(** ** Deleting the first match *)

Lemma delete_first_none : forall {A} (t : A -> bool) c,
  find t c = None -> delete_first t c = c.
Proof.
  intros A t c. induction c as [| x c IH]; simpl; [reflexivity |].
  destruct (t x); [discriminate |]. intro H. now rewrite IH.
Qed.

Lemma delete_first_app : forall {A} (t : A -> bool) c x,
  find t c = None -> t x = true -> delete_first t (c ++ [x]) = c.
Proof.
  intros A t c x. induction c as [| y c IH]; simpl.
  - intros _ H. now rewrite H.
  - destruct (t y); [discriminate |]. intros H Hx. now rewrite IH.
Qed.

Lemma find_other_delete_first : forall {A} (t1 t2 : A -> bool) c,
  (forall x, In x c -> t1 x = true -> t2 x = false) ->
  find t2 (delete_first t1 c) = find t2 c.
Proof.
  intros A t1 t2 c. induction c as [| x c IH]; simpl; intro H; [reflexivity |].
  destruct (t1 x) eqn:E1.
  - now rewrite (H x (or_introl eq_refl) E1).
  - simpl. destruct (t2 x); [reflexivity |]. apply IH. intros y Hy. apply H.
    now right.
Qed.

Lemma filter_delete_first : forall {A} (t : A -> bool) c,
  filter t (delete_first t c) = tl (filter t c).
Proof.
  intros A t c. induction c as [| x c IH]; simpl; [reflexivity |].
  destruct (t x) eqn:E; simpl; [reflexivity |]. now rewrite E.
Qed.

Lemma delete_first_length : forall {A} (t : A -> bool) c,
  List.length (delete_first t c) =
  (List.length c - match find t c with Some _ => 1 | None => 0 end)%nat.
Proof.
  intros A t c. induction c as [| x c IH]; simpl; [reflexivity |].
  destruct (t x) eqn:E; simpl; [lia |].
  rewrite IH. destruct (find t c) eqn:Hf; [| lia].
  apply find_some in Hf as [Hin _]. destruct c; [destruct Hin | simpl; lia].
Qed.

Lemma filter_nil_find : forall {A} (t : A -> bool) c,
  filter t c = [] -> find t c = None.
Proof.
  intros A t c. induction c as [| x c IH]; simpl; [reflexivity |].
  destruct (t x); [discriminate | exact IH].
Qed.

(** A stored user is matched by its own ID only. *)
Lemma other_user_no_match : forall uid uid' d,
  uid' <> uid -> valid_id d = true ->
  matches_doc (Users.by_id uid) d = true ->
  matches_doc (Users.by_id uid') d = false.
Proof.
  intros uid uid' d Hne Hv Hm. unfold Users.by_id in *.
  rewrite matches_str_id in * by assumption.
  apply has_id_str in Hm. unfold has_id. rewrite Hm. simpl.
  now apply String.eqb_neq.
Qed.

End MoreFacts.
Import MoreFacts.

(* ================================================================== *)
(** * Properties of the ID listings and of [delete_user] *)
(* ================================================================== *)

Module AdminProps.

(** [get_card_ids] reads the catalog without changing anything and lists
    every card ID once: a value is listed exactly when some catalog card has
    it as [_id], so an integer is listed exactly when a lookup by that ID
    finds a card. *)
Theorem get_card_ids_lists_catalog : forall w,
  valid_ids (cards w) = true ->
  exists ids,
    CardQueries.get_card_ids w = (Ok ids, w) /\
    NoDup ids /\
    (forall v, In v ids <->
               exists d, In d (cards w) /\ dict_get "_id" d = Some v) /\
    (forall n, In (VInt n) ids <-> card_by_id n (cards w) <> None).
Proof.
  intros w Hv. eexists. split; [reflexivity |]. split; [| split].
  - apply distinct_values_nodup.
  - intro v. now apply distinct_ids_in.
  - intro n. rewrite (distinct_ids_in _ _ Hv). symmetry.
    now apply find_by_int_id.
Qed.

Lemma get_card_ids_lists_catalog_witness :
  exists ids,
    CardQueries.get_card_ids small_catalog = (Ok ids, small_catalog) /\
    NoDup ids.
Proof.
  destruct (get_card_ids_lists_catalog small_catalog eq_refl)
    as (ids & H1 & H2 & _).
  exists ids. split; assumption.
Defined.

(** [get_all_user_ids] reads the users without changing anything and lists
    every user ID once: a string is listed exactly when [find_user] finds a
    user with that ID. *)
Theorem get_all_user_ids_lists_users : forall w,
  valid_ids (users w) = true ->
  exists ids,
    UserAdmin.get_all_user_ids w = (Ok ids, w) /\
    NoDup ids /\
    (forall v, In v ids <->
               exists d, In d (users w) /\ dict_get "_id" d = Some v) /\
    (forall uid, In (VStr uid) ids <-> stored_user uid w <> None).
Proof.
  intros w Hv. eexists. split; [reflexivity |]. split; [| split].
  - apply distinct_values_nodup.
  - intro v. now apply distinct_ids_in.
  - intro uid. rewrite (distinct_ids_in _ _ Hv). symmetry.
    now apply find_by_str_id.
Qed.

Lemma get_all_user_ids_lists_users_witness :
  exists ids,
    UserAdmin.get_all_user_ids user_with_card_5 = (Ok ids, user_with_card_5) /\
    NoDup ids.
Proof.
  destruct (get_all_user_ids_lists_users user_with_card_5 eq_refl)
    as (ids & H1 & H2 & _).
  exists ids. split; assumption.
Defined.

(** [delete_user] never raises and touches nothing but the users
    collection. For an ID that is not stored the world stays as it is; for
    a stored one exactly one document goes. Every other user is found as
    before, and when the ID was stored once it is no longer found, so
    [get_user_album] then returns the empty list. *)
Theorem delete_user_removes_one : forall uid w,
  exists w',
    UserAdmin.delete_user uid w = (Ok tt, w') /\
    cards w' = cards w /\ heap w' = heap w /\
    (stored_user uid w = None -> w' = w) /\
    (stored_user uid w <> None ->
       S (List.length (users w')) = List.length (users w)) /\
    (valid_ids (users w) = true ->
       forall uid', uid' <> uid -> stored_user uid' w' = stored_user uid' w) /\
    ((List.length (filter (matches_doc (Users.by_id uid)) (users w)) <= 1)%nat ->
       stored_user uid w' = None /\
       Users.get_user_album uid w' = (Ok (VArr []), w')).
Proof.
  intros uid w. eexists. split; [reflexivity |].
  cbn [cards heap users with_users]. unfold coll_delete_one.
  repeat split.
  - intro H. rewrite stored_user_find in H.
    rewrite (delete_first_none _ _ H). unfold with_users. apply world_eta.
  - intro H. rewrite stored_user_find in H. rewrite delete_first_length.
    destruct (find _ (users w)) as [d |] eqn:Hf; [| congruence].
    apply find_some in Hf as [Hin _].
    destruct (users w); [destruct Hin | simpl; lia].
  - intros Hv uid' Hne. rewrite !stored_user_find. cbn [users with_users].
    apply find_other_delete_first. intros x Hx Hm.
    apply (other_user_no_match uid); auto.
    unfold valid_ids in Hv. rewrite forallb_forall in Hv. now apply Hv.
  - rewrite stored_user_find. cbn [users with_users].
    apply filter_nil_find. rewrite filter_delete_first.
    destruct (filter _ (users w)) as [| a [| b l]]; simpl in *;
      [reflexivity | reflexivity | lia].
  - unfold Users.get_user_album, bind, Users.find_user, users_find_one.
    rewrite find_one_all. cbn [users with_users].
    assert (Hnone : find (matches_doc (Users.by_id uid))
                      (delete_first (matches_doc (Users.by_id uid)) (users w))
                    = None).
    { apply filter_nil_find. rewrite filter_delete_first.
      destruct (filter _ (users w)) as [| a [| b l]]; simpl in *;
        [reflexivity | reflexivity | lia]. }
    now rewrite Hnone.
Qed.

Lemma delete_user_removes_one_witness :
  exists w',
    UserAdmin.delete_user "u1" user_with_card_5 = (Ok tt, w') /\
    stored_user "u1" w' = None /\
    Users.get_user_album "u1" w' = (Ok (VArr []), w').
Proof.
  destruct (delete_user_removes_one "u1" user_with_card_5)
    as (w' & H1 & _ & _ & _ & _ & _ & H2).
  exists w'. split; [exact H1 |]. apply H2. vm_compute. lia.
Defined.

(** Creating a user that was not stored and deleting it again gives back
    the world as it was. *)
Theorem insert_then_delete_user : forall uid w,
  stored_user uid w = None ->
  (Users.insert_user uid ;;; UserAdmin.delete_user uid) w = (Ok tt, w).
Proof.
  intros uid w H. unfold bind.
  rewrite (UserProps.insert_user_run _ _ H).
  unfold UserAdmin.delete_user, UserAdmin.users_delete_one, coll_delete_one.
  cbn [users with_users]. rewrite stored_user_find in H.
  rewrite delete_first_app; [| assumption |].
  - unfold with_users. cbn. now rewrite world_eta.
  - apply UserProps.has_id_matches. unfold has_id. cbn. apply String.eqb_refl.
Qed.

Lemma insert_then_delete_user_witness :
  (Users.insert_user "u2" ;;; UserAdmin.delete_user "u2") user_with_card_5 =
  (Ok tt, user_with_card_5).
Proof.
  apply (insert_then_delete_user "u2" user_with_card_5). reflexivity.
Defined.

End AdminProps.

(* ================================================================== *)
(** * What album updates leave alone *)
(* ================================================================== *)

Module FrameFacts.

Lemma untouched_refl : forall uid w, untouched_but uid w w.
Proof.
  intros. repeat split.
Qed.

Lemma untouched_trans : forall uid w1 w2 w3,
  untouched_but uid w1 w2 -> untouched_but uid w2 w3 ->
  untouched_but uid w1 w3.
Proof.
  intros uid w1 w2 w3 (A1 & A2 & A3 & A4) (B1 & B2 & B3 & B4).
  repeat split; try congruence.
  intros uid' H. rewrite (B4 _ H). now apply A4.
Qed.

Lemma untouched_ticks : forall uid t w, untouched_but uid w (with_ticks t w).
Proof.
  intros. repeat split.
Qed.

(** An update without upsert either changes nothing or rewrites the first
    matching document, whose [_id] stays. *)
Lemma coll_update_cases : forall q u c c',
  coll_update q u false c = Ok c' ->
  c' = c \/
  exists d d',
    find (matches_doc q) c = Some d /\
    dict_get "_id" d' = dict_get "_id" d /\
    c' = replace_first (matches_doc q) d' c.
Proof.
  intros q u c c'. unfold coll_update.
  destruct (sendable u && (negb false || base_encodable q));
    [| discriminate].
  destruct (find (matches_doc q) c) as [d |] eqn:Hf.
  - rewrite (update_first_found _ _ _ _ Hf). unfold apply_update.
    destruct (apply_op (positional q d) u d) as [d' | e]; cbn [obind];
      [| discriminate].
    destruct (opt_value_eqb (dict_get "_id" d') (dict_get "_id" d)) eqn:E;
      cbn [obind]; [| discriminate].
    intros [= <-]. right. exists d, d'. repeat split.
    now apply opt_value_eqb_eq.
  - rewrite (update_first_none _ _ _ Hf). intros [= <-]. now left.
Qed.

Lemma matches_same_id : forall uid d d',
  dict_get "_id" d' = dict_get "_id" d ->
  matches_doc (Users.by_id uid) d' = matches_doc (Users.by_id uid) d.
Proof.
  intros uid d d' H. unfold matches_doc, Users.by_id, clause_holds.
  cbn [forallb fst snd]. change (split_path "_id") with ["_id"].
  cbn [path_values]. now rewrite H.
Qed.

Lemma valid_ids_replace_first : forall (t : document -> bool) d' c,
  valid_ids c = true -> valid_id d' = true ->
  valid_ids (replace_first t d' c) = true.
Proof.
  intros t d' c. unfold valid_ids.
  induction c as [| x c IH]; cbn [replace_first forallb]; [reflexivity |].
  intros H Hd'. apply andb_true_iff in H as [Hx Hc].
  destruct (t x); cbn [forallb].
  - now rewrite Hd', Hc.
  - now rewrite Hx, IH.
Qed.

(** An update addressed to the document of [uid] leaves the other users
    alone, whatever it does and whether or not it succeeds. *)
Lemma users_update_frame : forall uid q u w,
  valid_ids (users w) = true ->
  (forall d, matches_doc q d = true -> matches_doc (Users.by_id uid) d = true) ->
  valid_ids (users (snd (users_update q u false w))) = true /\
  untouched_but uid w (snd (users_update q u false w)).
Proof.
  intros uid q u w Hv Hq. unfold users_update.
  destruct (coll_update q u false (users w)) as [c' | e] eqn:Hc;
    cbn [snd]; [| split; [assumption | apply untouched_refl]].
  destruct (coll_update_cases _ _ _ _ Hc) as [-> | (d & d' & Hf & Hid & ->)].
  - split; [assumption | repeat split].
  - pose proof (valid_ids_find _ _ _ Hv Hf) as Hvd.
    assert (Hvd' : valid_id d' = true).
    { unfold valid_id in *. now rewrite Hid. }
    split; [now apply valid_ids_replace_first |].
    repeat split.
    + cbn [users with_users]. apply replace_first_length.
    + intros uid' Hne. rewrite !stored_user_find. cbn [users with_users].
      pose proof (Hq d (find_some_test _ _ _ Hf)) as Hm.
      apply (CardProps.find_other_replace_first _ _ _ d); [assumption | |].
      * now apply (other_user_no_match uid).
      * rewrite (matches_same_id _ _ _ Hid).
        now apply (other_user_no_match uid).
Qed.

Lemma two_clauses_imply : forall uid cid d,
  matches_doc [("_id", CEq (VStr uid)); ("album.id", CEq cid)] d = true ->
  matches_doc (Users.by_id uid) d = true.
Proof.
  intros uid cid d H. unfold matches_doc, Users.by_id in *.
  cbn [forallb] in *. apply andb_true_iff in H as [H _]. now rewrite H.
Qed.

Lemma add_card_frame : forall uid idolized card w,
  valid_ids (users w) = true ->
  valid_ids (users (snd (Users.add_card uid idolized card w))) = true /\
  untouched_but uid w (snd (Users.add_card uid idolized card w)).
Proof.
  intros uid idolized card w Hv.
  assert (Hstop : valid_ids (users w) = true /\ untouched_but uid w w)
    by (split; [assumption | apply untouched_refl]).
  unfold Users.add_card, bind, lift.
  destruct (subscript card "_id") as [cid | e]; [| exact Hstop].
  unfold Users._user_has_card, bind, users_find_one.
  destruct (find_one _ _ (users w)) as [p |]; [| exact Hstop].
  unfold ret.
  destruct (negb (Nat.ltb 1 (List.length (keys p)))).
  - unfold time_ms.
    destruct (users_update_frame uid (Users.by_id uid)
                (UPush "album"
                   [VDoc [("id", cid); ("unidolized_count", VInt 1);
                          ("idolized_count", VInt 0);
                          ("time_aquired", VInt (clock w (ticks w)))]]
                   ("id", 1))
                (with_ticks (S (ticks w)) w) Hv (fun d H => H)) as [H1 H2].
    split; [exact H1 |].
    eapply untouched_trans; [apply (untouched_ticks uid (S (ticks w))) | exact H2].
  - destruct idolized;
      apply (users_update_frame uid _ _ w Hv (two_clauses_imply uid cid)).
Qed.

End FrameFacts.
Import FrameFacts.

(* ================================================================== *)
(** * Properties of album updates taken together *)
(* ================================================================== *)

Module FrameProps.

(** [add_to_user_album] for one user, whatever the card list and however
    the call ends, leaves the catalog and the caller's dictionaries as they
    were, adds and drops no user document, and leaves every other user's
    document as it was. *)
Theorem add_to_user_album_touches_one_user :
  forall uid new_cards idolized w,
  valid_ids (users w) = true ->
  valid_ids (users (snd (Users.add_to_user_album uid new_cards idolized w)))
    = true /\
  untouched_but uid w (snd (Users.add_to_user_album uid new_cards idolized w)).
Proof.
  intros uid new_cards idolized.
  induction new_cards as [| card rest IH]; intros w Hv.
  - split; [assumption | apply untouched_refl].
  - cbn [Users.add_to_user_album]. unfold bind.
    destruct (add_card_frame uid idolized card w Hv) as [Hv1 Hu1].
    destruct (Users.add_card uid idolized card w) as [[[] | e] w1];
      cbn [snd] in *.
    + destruct (IH w1 Hv1) as [Hv2 Hu2].
      split; [exact Hv2 | exact (untouched_trans _ _ _ _ Hu1 Hu2)].
    + split; assumption.
Qed.

Lemma add_to_user_album_touches_one_user_witness :
  untouched_but "u1" user_with_card_5
    (snd (Users.add_to_user_album "u1" [card_3; card_5] true user_with_card_5)).
Proof.
  apply (add_to_user_album_touches_one_user "u1" [card_3; card_5] true
           user_with_card_5).
  reflexivity.
Defined.

(** [remove_from_user_album] likewise touches nothing but the document of
    the user it is called for. *)
Theorem remove_from_user_album_touches_one_user :
  forall uid c idolized count w,
  valid_ids (users w) = true ->
  valid_ids
    (users (snd (Users.remove_from_user_album uid c idolized count w)))
    = true /\
  untouched_but uid w
    (snd (Users.remove_from_user_album uid c idolized count w)).
Proof.
  intros uid c idolized count w Hv.
  assert (Hstop : valid_ids (users w) = true /\ untouched_but uid w w)
    by (split; [assumption | apply untouched_refl]).
  unfold Users.remove_from_user_album, bind.
  rewrite get_card_from_album_run.
  destruct (album_entry uid c w) as [card |]; [| exact Hstop].
  destruct (negb (truthy card)); [exact Hstop |].
  unfold lift.
  destruct (subscript card "unidolized_count") as [nu | e]; [| exact Hstop].
  destruct (subscript card "idolized_count") as [ni | e]; [| exact Hstop].
  match goal with
  | |- context [if idolized then ?a else ?b] =>
      destruct (if idolized then a else b) as [counts | e]; [| exact Hstop]
  end.
  pose proof (users_update_frame uid
                [("_id", CEq (VStr uid)); ("album.id", CEq (VInt c))]
                (USet [("album.$.unidolized_count", fst counts);
                       ("album.$.idolized_count", snd counts)])
                w Hv (two_clauses_imply uid (VInt c))) as H.
  destruct (users_update _ _ false w) as [[[] | e] w']; exact H.
Qed.

Lemma remove_from_user_album_touches_one_user_witness :
  untouched_but "u1" user_with_card_5
    (snd (Users.remove_from_user_album "u1" 5 false 3 user_with_card_5)).
Proof.
  apply (remove_from_user_album_touches_one_user "u1" 5 false 3
           user_with_card_5).
  reflexivity.
Defined.



Lemma dict_set_same : forall k v d, dict_get k d = Some v -> dict_set k v d = d.
Proof.
  intros k v d. induction d as [| [k0 v0] d IH]; simpl; [discriminate |].
  destruct (String.eqb k k0) eqn:E.
  - apply String.eqb_eq in E. intros [= ->]. now subst.
  - intro H. now rewrite IH.
Qed.

Lemma list_set_same : forall {A} k (x : A) l,
  nth_error l k = Some x -> list_set k x l = l.
Proof.
  intros A k x l. revert k.
  induction l as [| y l IH]; intros [| k]; simpl; try discriminate.
  - now intros [= ->].
  - intro H. now rewrite IH.
Qed.

Lemma replace_first_twice : forall {A} (t : A -> bool) x y c,
  t y = true ->
  replace_first t x (replace_first t y c) = replace_first t x c.
Proof.
  intros A t x y c Hy. induction c as [| z c IH]; simpl; [reflexivity |].
  destruct (t z) eqn:E; simpl.
  - now rewrite Hy.
  - now rewrite E, IH.
Qed.

Lemma replace_first_same : forall {A} (t : A -> bool) d c,
  find t c = Some d -> replace_first t d c = c.
Proof.
  intros A t d c. induction c as [| z c IH]; simpl; [discriminate |].
  destruct (t z).
  - now intros [= ->].
  - intro H. now rewrite IH.
Qed.

(** Adding one more copy of a card the album holds and then removing one
    copy of the same kind gives back the world exactly as it was, when the
    counters are 64-bit integers and the one that is raised is below the
    top of the range. *)
Theorem add_then_remove_restores :
  forall uid card c (idolized : bool) w d al k ed u i,
  valid_ids (users w) = true ->
  stored_user uid w = Some d ->
  dict_get "album" d = Some (VArr al) ->
  subscript card "_id" = Ok (VInt c) ->
  entry_index c al = Some k ->
  nth_error al k = Some (VDoc ed) ->
  dict_get "unidolized_count" ed = Some (VInt u) ->
  dict_get "idolized_count" ed = Some (VInt i) ->
  int64 u = true ->
  int64 i = true ->
  int64 ((if idolized then i else u) + 1) = true ->
  (Users.add_to_user_album uid [card] idolized ;;;
   Users.remove_from_user_album uid c idolized 1) w = (Ok true, w).
Proof.
  intros uid card c idolized w d al k ed u i Hv Hd Hal Hc Hk Hnth Hu Hi
         Hu64 Hi64 Hfit.
  set (m := if idolized then i else u) in *.
  assert (Hm : dict_get (counter idolized) ed = Some (VInt m))
    by (unfold m; destruct idolized; assumption).
  set (ed1 := dict_set (counter idolized) (VInt (m + 1)) ed).
  set (al1 := list_set k (VDoc ed1) al).
  set (d1 := dict_set "album" (VArr al1) d).
  unfold bind. rewrite add_singleton.
  rewrite (add_existing_run uid idolized card c w d al k ed m
             Hv Hd Hal Hc Hk Hnth Hm Hfit).
  fold ed1. fold al1.
  assert (Hid1 : dict_get "id" ed1 = dict_get "id" ed).
  { unfold ed1. now rewrite dict_get_set, counter_not_id. }
  assert (Hmatch : elem_matches (entry_query c) (VDoc ed1) = true).
  { rewrite (UserProps.elem_matches_same_id _ _ _ Hid1).
    destruct (find_index_find _ _ _ Hk) as (e & Hn & _ & He). congruence. }
  rewrite (UserProps.remove_run uid c idolized 1 (with_album uid d al1 w)
             d1 al1 k ed1
             (if idolized then u else u + 1) (if idolized then i + 1 else i)).
  - assert (Hback :
      int64 (if idolized
             then (if idolized then u else u + 1)
             else (if idolized then u else u + 1) - 1)
      && int64 (if idolized
                then (if idolized then i + 1 else i) - 1
                else (if idolized then i + 1 else i)) = true).
    { destruct idolized.
      - replace (i + 1 - 1) with i by lia. now rewrite Hu64, Hi64.
      - replace (u + 1 - 1) with u by lia. now rewrite Hu64, Hi64. }
    rewrite Hback. f_equal.
    assert (Hed : dict_set "idolized_count"
                    (VInt (if idolized
                           then (if idolized then i + 1 else i) - 1
                           else (if idolized then i + 1 else i)))
                    (dict_set "unidolized_count"
                       (VInt (if idolized
                              then (if idolized then u else u + 1)
                              else (if idolized then u else u + 1) - 1))
                       ed1) = ed).
    { unfold ed1, m. destruct idolized; cbn [counter].
      - rewrite (dict_set_same "unidolized_count" (VInt u))
          by (now rewrite dict_get_set).
        rewrite dict_set_twice. replace (i + 1 - 1) with i by lia.
        now apply dict_set_same.
      - rewrite dict_set_twice. replace (u + 1 - 1) with u by lia.
        rewrite (dict_set_same "unidolized_count" (VInt u)) by assumption.
        now apply dict_set_same. }
    rewrite Hed. unfold al1. rewrite list_set_twice.
    rewrite (list_set_same _ _ _ Hnth).
    unfold with_album, d1. cbn [users with_users].
    rewrite dict_set_twice, (dict_set_same _ _ _ Hal).
    rewrite stored_user_find in Hd.
    rewrite replace_first_twice.
    + rewrite (replace_first_same _ _ _ Hd). unfold with_users. cbn.
      apply world_eta.
    + rewrite UserProps.matches_with_album. eapply find_some_test; eauto.
  - now apply valid_ids_with_album.
  - now apply UserProps.stored_user_with_album.
  - unfold d1. now rewrite dict_get_set.
  - unfold al1. now apply find_index_list_set.
  - unfold al1. eapply nth_error_list_set_same; eauto.
  - unfold ed1. rewrite dict_get_set. destruct idolized; cbn [counter];
      [assumption | reflexivity].
  - unfold ed1. rewrite dict_get_set. destruct idolized; cbn [counter];
      [reflexivity | assumption].
Qed.

Lemma add_then_remove_restores_witness :
  (Users.add_to_user_album "u1" [card_5] true ;;;
   Users.remove_from_user_album "u1" 5 true 1) user_with_card_5 =
  (Ok true, user_with_card_5).
Proof.
  apply (add_then_remove_restores "u1" card_5 5 true user_with_card_5 u1_doc
           [VDoc entry_5] 0%nat entry_5 1 0); reflexivity.
Defined.

End FrameProps.

(* ================================================================== *)
(** * Facts about the catalog operations *)
(* ================================================================== *)

Module CatalogFacts.

(** ** [upsert_card] *)

Lemma in_nodup_get : forall k v (fs : document),
  NoDup (keys fs) -> In (k, v) fs -> dict_get k fs = Some v.
Proof.
  intros k v fs. induction fs as [| [k0 v0] fs IH]; simpl; intros Hnd Hin.
  - destruct Hin.
  - inversion Hnd as [| ? ? Hnotin Hnd']; subst.
    destruct Hin as [[= -> ->] | Hin].
    + now rewrite String.eqb_refl.
    + destruct (String.eqb k k0) eqn:E; [| now apply IH].
      apply String.eqb_eq in E. subst k0. exfalso. apply Hnotin.
      change k with (fst (k, v)). now apply in_map.
Qed.

Lemma set_all_fixed : forall fs d,
  (forall k v, In (k, v) fs -> dict_get k d = Some v) -> set_all fs d = d.
Proof.
  unfold set_all. intros fs.
  induction fs as [| [k v] fs IH]; simpl; intros d H; [reflexivity |].
  rewrite (FrameProps.dict_set_same k v d) by (apply H; now left).
  apply IH. intros k' v' Hin. apply H. now right.
Qed.

Lemma set_all_get : forall k fs d,
  NoDup (keys fs) ->
  dict_get k (set_all fs d) = merged (dict_get k fs) (dict_get k d).
Proof.
  intros. now apply get_after_sets.
Qed.

Lemma set_all_idem : forall fs d,
  NoDup (keys fs) -> set_all fs (set_all fs d) = set_all fs d.
Proof.
  intros fs d Hnd. apply set_all_fixed. intros k v Hin.
  rewrite set_all_get by assumption.
  now rewrite (in_nodup_get _ _ _ Hnd Hin).
Qed.

(** [upsert_card] of a well-formed card, as one equation. *)
Lemma upsert_card_effect : forall w card c n,
  valid_ids (cards w) = true ->
  nth_error (heap w) card = Some c ->
  forallb plain_key (keys c) = true ->
  NoDup (keys c) ->
  dict_get "id" c = Some (VInt n) ->
  encodable_fields c = true ->
  Cards.upsert_card card w =
  (Ok tt,
   with_cards (upserted n (rekeyed (VInt n) c) (cards w))
              (with_heap (heap w ++ [rekeyed (VInt n) c]) w)).
Proof.
  intros w card c n Hv Hc Hplain Hnd Hid Henc.
  pose proof (upsert_sendable _ _ Henc Hid) as Hsend.
  rewrite (upsert_card_run _ _ _ _ Hc Hid). cbv zeta.
  set (q := [("_id", CEq (VInt n))]).
  set (c' := rekeyed (VInt n) c).
  assert (Hid' : forall d, dict_get "_id" (set_all c' d) = Some (VInt n)).
  { intro d. rewrite set_all_get by now apply rekeyed_nodup.
    unfold c'. now rewrite rekeyed_id. }
  unfold coll_update, upserted. fold q. fold q c' in Hsend. rewrite Hsend.
  destruct (find (matches_doc q) (cards w)) as [old |] eqn:Hf.
  - assert (Hold : dict_get "_id" old = Some (VInt n)).
    { apply has_id_int. rewrite <- matches_int_id.
      - eapply find_some_test; eauto.
      - eapply valid_ids_find; eauto. }
    rewrite (update_first_found _ _ _ _ Hf).
    unfold apply_update, apply_op.
    rewrite set_plain_fields by now apply rekeyed_plain.
    fold c'. fold (set_all c' old). cbn [obind]. rewrite Hid', Hold.
    cbn [opt_value_eqb value_eqb]. rewrite Z.eqb_refl. reflexivity.
  - rewrite (update_first_none _ _ _ Hf).
    change (upsert_base q []) with (@Ok document [("_id", VInt n)]).
    cbn [obind]. unfold apply_op.
    rewrite set_plain_fields by now apply rekeyed_plain.
    fold c'. fold (set_all c' [("_id", VInt n)]). cbn [obind].
    rewrite Hid'.
    assert (Hex : existsb (has_id (VInt n)) (cards w) = false).
    { eapply existsb_has_id_matches; eauto.
      intros d Hd. now apply matches_int_id. }
    now rewrite Hex.
Qed.

Lemma upserted_found : forall n fs c,
  valid_ids c = true -> NoDup (keys fs) ->
  dict_get "_id" fs = Some (VInt n) ->
  exists base,
    find (matches_doc [("_id", CEq (VInt n))]) (upserted n fs c) =
      Some (set_all fs base) /\
    valid_ids (upserted n fs c) = true /\
    match find (matches_doc [("_id", CEq (VInt n))]) c with
    | Some old => base = old
    | None => base = [("_id", VInt n)]
    end.
Proof.
  intros n fs c Hv Hnd Hid.
  set (q := [("_id", CEq (VInt n))]).
  assert (Hid' : forall d, dict_get "_id" (set_all fs d) = Some (VInt n)).
  { intro d. rewrite set_all_get by assumption. now rewrite Hid. }
  assert (Hvalid : forall d, valid_id (set_all fs d) = true).
  { intro d. unfold valid_id. now rewrite Hid'. }
  assert (Hmatch : forall d, matches_doc q (set_all fs d) = true).
  { intro d. unfold q. rewrite matches_int_id by apply Hvalid.
    unfold has_id. rewrite Hid'. simpl. apply Z.eqb_refl. }
  unfold upserted. fold q.
  destruct (find (matches_doc q) c) as [old |] eqn:Hf.
  - exists old. repeat split.
    + eapply find_replace_first; eauto.
    + now apply valid_ids_replace_first.
  - exists [("_id", VInt n)]. repeat split.
    + rewrite find_app_none by assumption. cbn [find]. now rewrite Hmatch.
    + unfold valid_ids in *. rewrite forallb_app, Hv. cbn [forallb].
      now rewrite Hvalid.
Qed.

(** ** Projection by field *)

Lemma include_doc_eq : forall paths d,
  include paths (VDoc d) = Some (VDoc (include_doc paths d)).
Proof.
  intros paths d. cbn [include]. do 2 f_equal.
  induction d as [| [k x] d IH]; cbn [include_doc]; [reflexivity |].
  rewrite IH. reflexivity.
Qed.


Lemma whole_field_neq : forall paths k k0,
  whole_field k paths = true -> whole_field k0 paths = false ->
  String.eqb k k0 = false.
Proof.
  intros paths k k0 H H0. destruct (String.eqb k k0) eqn:E; [| reflexivity].
  apply String.eqb_eq in E. congruence.
Qed.

(** A field the projection names whole is shown as stored. *)
Lemma include_doc_whole : forall paths d k,
  whole_field k paths = true ->
  dict_get k (include_doc paths d) = dict_get k d.
Proof.
  intros paths d k Hk. induction d as [| [k0 x] d IH]; cbn [include_doc];
    [reflexivity |].
  destruct (whole_field k0 paths) eqn:Hw.
  - cbn [dict_get]. now rewrite IH.
  - cbn [dict_get]. rewrite (whole_field_neq _ _ _ Hk Hw).
    destruct (below_field k0 paths) as [| p sub]; [exact IH |].
    destruct (include (p :: sub) x); [| exact IH].
    cbn [dict_get]. now rewrite (whole_field_neq _ _ _ Hk Hw).
Qed.

(** An embedded document the projection goes below is shown in part. *)
Lemma include_doc_below : forall paths d k i p sub,
  whole_field k paths = false ->
  below_field k paths = p :: sub ->
  dict_get k d = Some (VDoc i) ->
  dict_get k (include_doc paths d) =
  Some (VDoc (include_doc (p :: sub) i)).
Proof.
  intros paths d k i p sub Hw Hb. induction d as [| [k0 x] d IH];
    cbn [include_doc dict_get]; [discriminate |].
  destruct (String.eqb k k0) eqn:E.
  - apply String.eqb_eq in E. subst k0. intros [= ->].
    rewrite Hw, Hb, include_doc_eq. cbn [dict_get].
    now rewrite String.eqb_refl.
  - intro H. destruct (whole_field k0 paths).
    + cbn [dict_get]. rewrite E. now apply IH.
    + destruct (below_field k0 paths) as [| p0 sub0]; [now apply IH |].
      destruct (include (p0 :: sub0) x); [| now apply IH].
      cbn [dict_get]. rewrite E. now apply IH.
Qed.

Ltac name_cases H :=
  cbn in H;
  repeat match type of H with
         | context [String.eqb ?k ?s] =>
             let E := fresh "E" in
             destruct (String.eqb k s) eqn:E;
             [apply String.eqb_eq in E; subst; cbn; tauto |]
         end;
  try discriminate.

Lemma card_paths_whole : forall k,
  whole_field k card_paths = true <-> In k shown_whole.
Proof.
  intro k. split.
  - intro H. unfold whole_field, card_paths in H. name_cases H.
  - intro H. cbn in H.
    repeat (destruct H as [<- | H]; [reflexivity |]). destruct H.
Qed.


Lemma idol_paths_whole : forall k,
  whole_field k idol_paths = true <-> In k shown_idol.
Proof.
  intro k. split.
  - intro H. unfold whole_field, idol_paths in H. name_cases H.
  - intro H. cbn in H.
    repeat (destruct H as [<- | H]; [reflexivity |]). destruct H.
Qed.

Lemma idol_paths_below : forall k, below_field k idol_paths = [].
Proof.
  reflexivity.
Qed.

(** ** [get_cards] *)



Lemma show_fields_card : forall d,
  show_fields ["idol.name"; "idol.year"; "idol.main_unit"; "idol.sub_unit";
               "rarity"; "attribute"; "card_image"; "card_idolized_image";
               "round_card_image"; "round_card_idolized_image"] d =
  shown_card d.
Proof.
  reflexivity.
Qed.

Lemma matches_in_ids : forall ns d,
  matches_doc [("_id", CIn (map VInt ns))] d =
  existsb (fun n => matches_doc [("_id", CEq (VInt n))] d) ns.
Proof.
  intros ns d. unfold matches_doc, clause_holds. cbn [forallb fst snd].
  rewrite andb_true_r. cbn [cond_holds].
  induction ns as [| n ns IH]; cbn [map existsb]; [reflexivity |].
  now rewrite IH, andb_true_r.
Qed.




Lemma get_card_run : forall n w,
  CardQueries.get_card n w =
  (Ok (option_map shown_card (card_by_id n (cards w))), w).
Proof.
  intros n w.
  unfold CardQueries.get_card, bind, CardQueries.get_cards, bind,
    CardQueries.cards_find_fields, find_fields, ret, card_by_id.
  rewrite find_one_all.
  rewrite (filter_ext _ (matches_doc [("_id", CEq (VInt n))]))
    by (intro d; rewrite (matches_in_ids [n]); cbn [existsb];
        apply orb_false_r).
  destruct (find _ (cards w)) as [d |] eqn:Hf.
  - destruct (find_some_filter _ _ _ Hf) as [rest ->].
    cbn [map]. rewrite to_list_cons. reflexivity.
  - rewrite (find_none_filter _ _ Hf). reflexivity.
Qed.

End CatalogFacts.
Import CatalogFacts.

(* ================================================================== *)
(** * Properties of the catalog operations *)
(* ================================================================== *)

Module CatalogProps.

(** [upsert_card] of a dictionary without [id] raises [KeyError('id')]
    before any round trip: the catalog and the users are as they were, and
    the heap only gained the copy. *)
Theorem upsert_card_without_id : forall w card c,
  nth_error (heap w) card = Some c ->
  dict_get "id" c = None ->
  Cards.upsert_card card w =
  (Raise (KeyError "id"), with_heap (heap w ++ [c]) w).
Proof.
  intros w card c Hc Hid.
  unfold Cards.upsert_card, bind, deepcopy, getitem, deref, lift, bind,
    subscript.
  rewrite Hc. cbn [heap with_heap]. rewrite nth_error_app_last, Hid.
  reflexivity.
Qed.

Lemma upsert_card_without_id_witness :
  Cards.upsert_card 0 (with_heap [[("rarity", VStr "R")]] empty_world) =
  (Raise (KeyError "id"),
   with_heap ([[("rarity", VStr "R")]] ++ [[("rarity", VStr "R")]])
             (with_heap [[("rarity", VStr "R")]] empty_world)).
Proof.
  apply (upsert_card_without_id (with_heap [[("rarity", VStr "R")]] empty_world)
           0%nat [("rarity", VStr "R")]); reflexivity.
Defined.

(** [upsert_card] of a card that holds an integer outside the signed 64-bit
    range, its [id] for one: the driver raises [OverflowError], the copy of
    the card stays on the heap, and the catalog and the users are as they
    were. *)
Theorem upsert_card_beyond_range : forall w card c v,
  nth_error (heap w) card = Some c ->
  dict_get "id" c = Some v ->
  encodable_fields (rekeyed v c) = false ->
  exists w',
    Cards.upsert_card card w = (Raise OverflowError, w') /\
    cards w' = cards w /\
    users w' = users w /\
    heap w' = heap w ++ [rekeyed v c].
Proof.
  intros w card c v Hc Hid Henc.
  rewrite (upsert_card_run _ _ _ _ Hc Hid). cbv zeta.
  unfold coll_update. cbn [sendable]. rewrite Henc. cbn [andb].
  eexists. split; [reflexivity |]. repeat split.
Qed.

Lemma upsert_card_beyond_range_witness :
  exists w',
    Cards.upsert_card 0
      (with_heap [[("id", VInt 9223372036854775808); ("rarity", VStr "R")]]
                 catalog_with_card_1) = (Raise OverflowError, w') /\
    cards w' = cards catalog_with_card_1 /\
    users w' = users catalog_with_card_1.
Proof.
  destruct (upsert_card_beyond_range
              (with_heap [[("id", VInt 9223372036854775808);
                           ("rarity", VStr "R")]] catalog_with_card_1)
              0%nat
              [("id", VInt 9223372036854775808); ("rarity", VStr "R")]
              (VInt 9223372036854775808) eq_refl eq_refl eq_refl)
    as (w' & H1 & H2 & H3 & _).
  exists w'. repeat split; assumption.
Defined.

(** [upsert_card] is idempotent on the store: for a card whose integers
    fit the signed 64-bit range, upserting the same card a second time
    succeeds and leaves the catalog exactly as the first upsert left it. *)
Theorem upsert_card_idempotent : forall w card c n,
  valid_ids (cards w) = true ->
  nth_error (heap w) card = Some c ->
  forallb plain_key (keys c) = true ->
  NoDup (keys c) ->
  dict_get "id" c = Some (VInt n) ->
  encodable_fields c = true ->
  exists w1 w2,
    Cards.upsert_card card w = (Ok tt, w1) /\
    Cards.upsert_card card w1 = (Ok tt, w2) /\
    cards w2 = cards w1 /\
    users w2 = users w1.
Proof.
  intros w card c n Hv Hc Hplain Hnd Hid Henc.
  set (fs := rekeyed (VInt n) c).
  assert (Hfs : NoDup (keys fs)) by now apply rekeyed_nodup.
  destruct (upserted_found n fs (cards w) Hv Hfs (rekeyed_id _ _))
    as (base & Hfind & Hv1 & _).
  eexists. eexists.
  split; [apply (upsert_card_effect w card c n); assumption | split].
  - apply (upsert_card_effect _ card c n); try assumption.
    cbn [heap with_heap with_cards]. rewrite nth_error_app1; [assumption |].
    apply nth_error_Some. congruence.
  - cbn [cards users with_cards with_heap]. fold fs. split; [| reflexivity].
    unfold upserted at 1. rewrite Hfind, set_all_idem by assumption.
    now apply FrameProps.replace_first_same.
Qed.

Lemma upsert_card_idempotent_witness :
  exists w1 w2,
    Cards.upsert_card 1 catalog_with_card_1 = (Ok tt, w1) /\
    Cards.upsert_card 1 w1 = (Ok tt, w2) /\
    cards w2 = cards w1 /\
    users w2 = users w1.
Proof.
  apply (upsert_card_idempotent catalog_with_card_1 1%nat card_1_second 1).
  - reflexivity.
  - reflexivity.
  - reflexivity.
  - CardProps.distinct_keys.
  - reflexivity.
  - reflexivity.
Defined.







(** Round trip: after [upsert_card] of a card with ID [n] whose integers
    fit the signed 64-bit range, [get_card(n)] returns a card with
    [_id = n] that carries every display field the card set, top level and
    below [idol], with the card's value, and [get_card_ids] lists [n]. *)
Theorem upsert_then_get_card : forall w card c n,
  valid_ids (cards w) = true ->
  nth_error (heap w) card = Some c ->
  forallb plain_key (keys c) = true ->
  NoDup (keys c) ->
  dict_get "id" c = Some (VInt n) ->
  encodable_fields c = true ->
  exists w' r ids,
    Cards.upsert_card card w = (Ok tt, w') /\
    CardQueries.get_card n w' = (Ok (Some r), w') /\
    dict_get "_id" r = Some (VInt n) /\
    (forall k v, In k shown_whole -> k <> "_id" ->
       dict_get k c = Some v -> dict_get k r = Some v) /\
    (forall i, dict_get "idol" c = Some (VDoc i) ->
       exists i',
         dict_get "idol" r = Some (VDoc i') /\
         forall k, In k shown_idol -> dict_get k i' = dict_get k i) /\
    CardQueries.get_card_ids w' = (Ok ids, w') /\
    In (VInt n) ids.
Proof.
  intros w card c n Hv Hc Hplain Hnd Hid Henc.
  set (fs := rekeyed (VInt n) c).
  assert (Hfs : NoDup (keys fs)) by now apply rekeyed_nodup.
  destruct (upserted_found n fs (cards w) Hv Hfs (rekeyed_id _ _))
    as (base & Hfind & Hv1 & _).
  set (stored := set_all fs base) in *.
  assert (Hget : forall k, k <> "_id" -> k <> "id" ->
            forall v, dict_get k c = Some v -> dict_get k stored = Some v).
  { intros k H1 H2 v Hk. unfold stored. rewrite set_all_get by assumption.
    unfold fs. now rewrite rekeyed_other, Hk. }
  assert (Hsid : dict_get "_id" stored = Some (VInt n)).
  { unfold stored. rewrite set_all_get by assumption.
    unfold fs. now rewrite rekeyed_id. }
  eexists. exists (shown_card stored). eexists.
  split; [apply (upsert_card_effect w card c n); assumption |].
  cbn [cards with_cards with_heap]. fold fs.
  split; [| split; [| split; [| split; [| split]]]].
  - rewrite get_card_run. cbn [cards with_cards with_heap].
    unfold card_by_id. rewrite find_one_all. fold fs. now rewrite Hfind.
  - unfold shown_card. now rewrite include_doc_whole by reflexivity.
  - intros k v Hk Hne Hkc. unfold shown_card.
    rewrite include_doc_whole by now apply card_paths_whole.
    apply Hget; auto. intros ->. cbn in Hk.
    repeat (destruct Hk as [Hk | Hk]; [discriminate |]). destruct Hk.
  - intros i Hi. exists (include_doc idol_paths i). split.
    + apply (include_doc_below card_paths stored "idol" i ["name"]
               [["year"]; ["main_unit"]; ["sub_unit"]]);
        [reflexivity | reflexivity |].
      apply Hget; [discriminate | discriminate | assumption].
    + intros k Hk. apply include_doc_whole. now apply idol_paths_whole.
  - reflexivity.
  - cbn [cards with_cards with_heap]. fold fs.
    apply (distinct_ids_in _ _ Hv1). exists stored. split; [| assumption].
    apply find_some in Hfind. tauto.
Qed.

Lemma upsert_then_get_card_witness :
  exists w' r ids,
    Cards.upsert_card 1 catalog_with_card_1 = (Ok tt, w') /\
    CardQueries.get_card 1 w' = (Ok (Some r), w') /\
    dict_get "_id" r = Some (VInt 1) /\
    CardQueries.get_card_ids w' = (Ok ids, w') /\
    In (VInt 1) ids.
Proof.
  assert (Hnd : NoDup (keys card_1_second)) by CardProps.distinct_keys.
  destruct (upsert_then_get_card catalog_with_card_1 1%nat card_1_second 1
              eq_refl eq_refl eq_refl Hnd eq_refl eq_refl)
    as (w' & r & ids & H1 & H2 & H3 & _ & _ & H4 & H5).
  exists w', r, ids. repeat split; assumption.
Defined.

End CatalogProps.

(* ================================================================== *)
(** * Batches and the order of the album *)
(* ================================================================== *)

Module BatchProps.

(** [add_to_user_album] works through its list card by card with no
    transaction around the batch: a list in two parts behaves as the first
    part followed by the second, what the first part wrote stays written
    when a later card fails, and a card without [_id] raises
    [KeyError('_id')] on the spot. *)
Theorem add_to_user_album_in_parts : forall uid idolized first_part later w,
  (forall w1,
     Users.add_to_user_album uid first_part idolized w = (Ok tt, w1) ->
     Users.add_to_user_album uid (first_part ++ later) idolized w =
     Users.add_to_user_album uid later idolized w1) /\
  (forall e w1,
     Users.add_to_user_album uid first_part idolized w = (Raise e, w1) ->
     Users.add_to_user_album uid (first_part ++ later) idolized w =
     (Raise e, w1)) /\
  (forall w1 card e,
     Users.add_to_user_album uid first_part idolized w = (Ok tt, w1) ->
     subscript card "_id" = Raise e ->
     Users.add_to_user_album uid (first_part ++ card :: later) idolized w =
     (Raise e, w1)).
Proof.
  intros uid idolized first_part later.
  assert (Hok : forall post w w1,
            Users.add_to_user_album uid first_part idolized w = (Ok tt, w1) ->
            Users.add_to_user_album uid (first_part ++ post) idolized w =
            Users.add_to_user_album uid post idolized w1).
  { intro post. induction first_part as [| card rest IH]; intros w w1.
    - cbn. unfold ret. now intros [= ->].
    - cbn [app Users.add_to_user_album]. unfold bind.
      destruct (Users.add_card uid idolized card w) as [[[] | e] w0];
        [apply IH | discriminate]. }
  intro w. split; [apply Hok | split].
  - clear Hok. revert w.
    induction first_part as [| card rest IH]; intros w e w1.
    + cbn. unfold ret. discriminate.
    + cbn [app Users.add_to_user_album]. unfold bind.
      destruct (Users.add_card uid idolized card w) as [[[] | e0] w0];
        [apply IH | exact (fun H => H)].
  - intros w1 card e H Hc. rewrite (Hok _ _ _ H).
    cbn [Users.add_to_user_album]. unfold bind, Users.add_card, bind, lift.
    now rewrite Hc.
Qed.

Lemma add_to_user_album_in_parts_witness :
  Users.add_to_user_album "u1" ([card_5] ++ VDoc [("rarity", VStr "R")] :: [card_3])
    false fresh_user =
  (Raise (KeyError "_id"), user_with_card_5).
Proof.
  apply (proj2 (proj2 (add_to_user_album_in_parts "u1" false [card_5] [card_3]
                         fresh_user))
           user_with_card_5 (VDoc [("rarity", VStr "R")]) (KeyError "_id"));
    reflexivity.
Defined.








End BatchProps.
